(** * Vibration frequency analyser: the spectral pipeline

    A shallow embedding of the signal-processing code of
    [AccelerometerApp/app/(tabs)/accelerometer.tsx]: [processData],
    [performFFT], [applyHannWindow] and [getDominantFrequencies].

    JavaScript numbers are IEEE 754 binary64 values; they are modelled by
    Rocq's primitive [float], whose operations are the same binary64
    operations (round to nearest, ties to even) and whose single [nan] stands
    for every NaN.  Arrays are lists.  The React state written by
    [processData] is threaded explicitly. *)

From Stdlib Require Import List ZArith Lia Bool Floats Sorted Permutation.
From Stdlib Require Uint63.
Import ListNotations.

Local Open Scope float_scope.

(** ** The JavaScript operations the code relies on *)

Module JS.

(** An array length or index, as the number JavaScript computes with.  Exact
    below 2^53, which covers every array length. *)
Definition of_nat (n : nat) : float :=
  of_uint63 (Uint63.of_Z (Z.of_nat n)).

(** The global [isNaN] and [isFinite] on a number. *)
Definition isNaN (v : float) : bool := is_nan v.

Definition isFinite (v : float) : bool := negb (is_nan v || is_infinity v).

(** [v || 0] for [v : number | undefined]: [undefined], [NaN], [+0] and [-0]
    are falsy. *)
Definition orZero (v : option float) : float :=
  match v with
  | None => 0
  | Some t => if is_nan t || is_zero t then 0 else t
  end.

(** [Math.PI], the binary64 value nearest to pi. *)
Definition Math_PI : float := 0x1.921fb54442d18p+1.

Definition Math_sqrt (v : float) : float := sqrt v.

(** [Math.cos].  ECMAScript fixes its value at NaN and the infinities (NaN)
    and at the zeros (1); elsewhere the result is an implementation's
    approximation, the parameter [cos_impl]. *)
Definition Math_cos (cos_impl : float -> float) (v : float) : float :=
  if isFinite v then (if is_zero v then 1 else cos_impl v) else nan.

(** [arr.map((value, index) => f value index)]. *)
Fixpoint mapi_from {A B : Type} (f : A -> nat -> B) (start : nat) (arr : list A) : list B :=
  match arr with
  | [] => []
  | value :: rest => f value start :: mapi_from f (S start) rest
  end.

Definition mapi {A B : Type} (f : A -> nat -> B) (arr : list A) : list B :=
  mapi_from f 0 arr.

(** [Array.prototype.sort(comparefn)].  ECMAScript requires the sort to be
    stable, and [comparefn a b > 0] means that [a] is placed after [b]; a NaN
    result counts as 0.  For a consistent comparator this fixes the result,
    which stable insertion computes: an element moves right past exactly the
    elements it must follow. *)
Fixpoint sort_insert {A : Type} (comparefn : A -> A -> float) (a : A) (sorted : list A) : list A :=
  match sorted with
  | [] => [a]
  | b :: rest =>
      if 0 <? comparefn a b then b :: sort_insert comparefn a rest
      else a :: b :: rest
  end.

Fixpoint sort {A : Type} (comparefn : A -> A -> float) (arr : list A) : list A :=
  match arr with
  | [] => []
  | a :: rest => sort_insert comparefn a (sort comparefn rest)
  end.

End JS.

(** ** Data model *)

(** [interface AccelerometerData]; [timestamp] is optional. *)
Record AccelerometerData := mkAccelerometerData {
  x : float;
  y : float;
  z : float;
  timestamp : option float
}.

(** One axis of the [fftResults] state. *)
Record AxisSpectrum := mkAxisSpectrum {
  frequencies : list float;
  magnitudes : list float
}.

(** The [fftResults] state: the fields [x], [y] and [z]. *)
Record FftResults := mkFftResults {
  xAxis : AxisSpectrum;
  yAxis : AxisSpectrum;
  zAxis : AxisSpectrum
}.

(** The texts [processData] writes with [setDebugInfo]. *)
Inductive DebugInfo :=
| DebugInitial
| DebugNotEnough
| DebugStats (samples : nat) (durationSeconds samplingRate : float)
| DebugError.

(** The component state [processData] reads and writes. *)
Record State := mkState {
  isProcessing : bool;
  debugInfo : DebugInfo;
  fftResults : option FftResults
}.

(** The entries [getDominantFrequencies] returns.  A ranked entry carries the
    index of its bin; the placeholder entries [{ frequency: 0, magnitude: 0 }]
    have no [index] property. *)
Record Peak := mkPeak {
  index : option nat;
  magnitude : float;
  frequency : float
}.

(** ** The fft-js library, as [performFFT] uses it

    The library is not part of the repository.  [performFFT] calls
    [fftLibrary.fft] with an array of [[re, im]] pairs and, when that call
    throws, with a flat array alternating real and imaginary parts; it then
    inspects the shape of the returned value at run time. *)

Inductive FftInput :=
| Phasors (pairs : list (float * float))
| Alternating (flat : list float).

(** An element of the returned array: a pair or a plain number. *)
Inductive JsElem :=
| EPair (re im : float)
| ENum (v : float).

(** What a call does: it throws, returns a value that is no array (reading
    [slice] from it throws), or returns an array. *)
Inductive FftOutcome :=
| Throws
| NotArray
| Arr (fftResult : list JsElem).

(** ** The pipeline *)

Section Pipeline.

Variable cos_impl : float -> float.
Variable fft : FftInput -> FftOutcome.

(** [applyHannWindow], lines 408-413. *)
Definition applyHannWindow (data : list float) : list float :=
  JS.mapi (fun value index =>
    let hannFactor :=
      0.5 * (1 - JS.Math_cos cos_impl
                   ((2 * JS.Math_PI * JS.of_nat index) / (JS.of_nat (length data) - 1))) in
    value * hannFactor) data.

(** [Math.pow(2, Math.ceil(Math.log2(len)))] for an array length [len],
    line 342.  [Math.log2] is exact at the powers of two and, for any other
    length, its rounded value stays strictly between the neighbouring
    integers, so the ceiling is the integer ceiling of the binary logarithm;
    [Math.pow] of 2 and a small integer is exact.  For [len = 0] the logarithm
    is [-Infinity] and the power is 0. *)
Definition nextPow2 (len : nat) : nat :=
  match len with
  | O => 0
  | S _ => (2 ^ Nat.log2_up len)%nat
  end.

(** The loop of lines 346-348: one zero is pushed per iteration, [n]
    iterations. *)
Fixpoint padZeros (n : nat) (paddedData : list float) : list float :=
  match n with
  | O => paddedData
  | S k => padZeros k (paddedData ++ [0])
  end.

(** [paddedData] when the loop ends: it runs while the length is below
    [nextPow2]. *)
Definition paddedData (timeData : list float) : list float :=
  padZeros (nextPow2 (length timeData) - length timeData)%nat timeData.

(** [windowedData], line 351. *)
Definition windowedData (timeData : list float) : list float :=
  applyHannWindow (paddedData timeData).

(** Lines 360 and 364-368: the two input formats. *)
Definition phasors (windowed : list float) : list (float * float) :=
  map (fun val => (val, 0)) windowed.

Definition alternating (windowed : list float) : list float :=
  flat_map (fun val => [val; 0]) windowed.

(** Lines 357-370: the inner [try]/[catch]. *)
Definition callFft (windowed : list float) : FftOutcome :=
  match fft (Phasors (phasors windowed)) with
  | Throws => fft (Alternating (alternating windowed))
  | outcome => outcome
  end.

(** Reading [e[0]] and [e[1]] from an element: a number has no such
    properties, and arithmetic on [undefined] yields NaN. *)
Definition elemRe (e : JsElem) : float :=
  match e with EPair re _ => re | ENum _ => nan end.

Definition elemIm (e : JsElem) : float :=
  match e with EPair _ im => im | ENum _ => nan end.

(** Reading [fftResult[k]] as a number: an index out of range gives
    [undefined], and a pair converts to NaN. *)
Definition elemNum (e : option JsElem) : float :=
  match e with Some (ENum v) => v | _ => nan end.

(** [Array.isArray(fftResult[0])], line 378. *)
Definition firstIsArray (fftResult : list JsElem) : bool :=
  match fftResult with
  | EPair _ _ :: _ => true
  | _ => false
  end.

(** Lines 376-394.  The first loop runs for [i < length / 2], that is over
    the first [ceil (length / 2)] elements; the second for [i < length / 4]. *)
Definition magnitudesOf (fftResult : list JsElem) (windowedLength : nat) : list float :=
  if firstIsArray fftResult then
    map (fun e =>
           let real := elemRe e in
           let imag := elemIm e in
           let magnitude := JS.Math_sqrt (real * real + imag * imag) in
           magnitude / JS.of_nat windowedLength)
        (firstn ((length fftResult + 1) / 2)%nat fftResult)
  else
    map (fun i =>
           let real := elemNum (nth_error fftResult (i * 2)%nat) in
           let imag := elemNum (nth_error fftResult (i * 2 + 1)%nat) in
           let magnitude := JS.Math_sqrt (real * real + imag * imag) in
           magnitude / JS.of_nat windowedLength)
        (seq 0 ((length fftResult + 3) / 4)%nat).

(** The [catch] of lines 398-401:
    [Array(Math.ceil(timeData.length / 2)).fill(0)]. *)
Definition fftFallback (timeData : list float) : list float :=
  repeat 0 ((length timeData + 1) / 2)%nat.

(** [performFFT], lines 336-402. *)
Definition performFFT (timeData : list float) : list float :=
  let windowed := windowedData timeData in
  match callFft windowed with
  | Arr fftResult => magnitudesOf fftResult (length windowed)
  | Throws | NotArray => fftFallback timeData
  end.

(** Lines 276-279. *)
Definition durationSeconds (first last : AccelerometerData) : float :=
  let firstTimestamp := JS.orZero (timestamp first) in
  let lastTimestamp := JS.orZero (timestamp last) in
  (lastTimestamp - firstTimestamp) / 1000.

Definition samplingRate (len : nat) (duration : float) : float :=
  JS.of_nat len / duration.

(** Lines 296-298: [Array.from({ length }, (_, i) => ...)]. *)
Definition frequencyBins (len : nat) (rate : float) : list float :=
  map (fun i => (JS.of_nat i * rate) / (JS.of_nat len * 2)) (seq 0 len).

(** [processData], lines 263-327.  [data[0]] and [data[data.length - 1]] are
    read after the length test; were one of them [undefined], reading its
    [timestamp] would throw into the [catch] of line 317. *)
Definition processData (st : State) (data : list AccelerometerData) : State :=
  if (length data <? 4)%nat then
    mkState false DebugNotEnough (fftResults st)
  else
    match nth_error data 0, nth_error data (length data - 1)%nat with
    | Some first, Some last =>
        let duration := durationSeconds first last in
        let rate := samplingRate (length data) duration in
        let xData := map x data in
        let yData := map y data in
        let zData := map z data in
        let fftX := performFFT xData in
        let fftY := performFFT yData in
        let fftZ := performFFT zData in
        let bins := frequencyBins (length fftX) rate in
        mkState false (DebugStats (length data) duration rate)
          (Some (mkFftResults (mkAxisSpectrum bins fftX)
                              (mkAxisSpectrum bins fftY)
                              (mkAxisSpectrum bins fftZ)))
    | _, _ => mkState false DebugError (fftResults st)
    end.

End Pipeline.

(** ** Dominant frequencies *)

(** Lines 734-735: NaN, an infinity and (for a frequency) a missing entry
    become 0. *)
Definition sanitize (v : option float) : float :=
  match v with
  | None => 0
  | Some f => if JS.isNaN f || negb (JS.isFinite f) then 0 else f
  end.

(** Lines 731-737: the entries of [magnitudes.slice(1)], each with its
    index in [magnitudes], that have a positive magnitude. *)
Definition indexedMagnitudes (frequencies magnitudes : list float) : list Peak :=
  filter (fun item => 0 <? magnitude item)
    (JS.mapi (fun mag i =>
                mkPeak (Some (i + 1)%nat) (sanitize (Some mag))
                       (sanitize (nth_error frequencies (i + 1)%nat)))
             (skipn 1 magnitudes)).

(** The comparator of line 745. *)
Definition byMagnitudeDesc (a b : Peak) : float :=
  magnitude b - magnitude a.

(** [getDominantFrequencies], lines 729-749; [count] defaults to 3. *)
Definition getDominantFrequencies (frequencies magnitudes : list float) (count : nat) : list Peak :=
  let indexed := indexedMagnitudes frequencies magnitudes in
  if (length indexed =? 0)%nat then
    repeat (mkPeak None 0 0) count
  else
    firstn count (JS.sort byMagnitudeDesc indexed).

(** The array fft-js returns: one [[re, im]] pair per coefficient. *)
Definition asPairs (coefficients : list (float * float)) : list JsElem :=
  map (fun c => EPair (fst c) (snd c)) coefficients.

(** The same coefficients as a flat array alternating real and imaginary
    parts, the format the second loop of [performFFT] reads. *)
Definition asFlat (coefficients : list (float * float)) : list JsElem :=
  flat_map (fun c => [ENum (fst c); ENum (snd c)]) coefficients.

(** The magnitude of one coefficient, normalised by the padded length
    (lines 383-384). *)
Definition normalisedMagnitude (paddedLength : nat) (c : float * float) : float :=
  JS.Math_sqrt (fst c * fst c + snd c * snd c) / JS.of_nat paddedLength.

(** ** Concrete libraries and recordings

    The pipeline is parametric in [Math.cos] and in the transform.  To run it
    on concrete inputs this section fixes one instance of each.  They are not
    the device's libraries: no statement below depends on the digits they
    produce, only on the shape of what they return. *)

Module Standin.

(** A cosine for arguments in [0, 2 pi], the range [applyHannWindow] uses:
    the Taylor polynomial of degree 30 around pi, by Horner's rule. *)
Definition cos_poly (v : float) : float :=
  let t := v - JS.Math_PI in
  let u := t * t in
  - fold_right (fun c acc => 1 - (u / c) * acc) 1
      [2; 12; 30; 56; 90; 132; 182; 240; 306; 380; 462; 552; 650; 756; 870].

Definition cos (v : float) : float := JS.Math_cos cos_poly v.

(** A sine for arguments in [0, 2 pi], through the cosine. *)
Definition sin (v : float) : float :=
  if v <? JS.Math_PI / 2 then cos (v + 3 * (JS.Math_PI / 2))
  else cos (v - JS.Math_PI / 2).

(** The direct discrete Fourier transform of a sequence of pairs:
    coefficient [k] is the sum of [input[n] * exp (-2 pi i k n / P)]. *)
Definition dft (input : list (float * float)) : list (float * float) :=
  let P := length input in
  map (fun k =>
         fold_left
           (fun acc nv =>
              let theta := (2 * JS.Math_PI * JS.of_nat ((k * fst nv) mod P)) / JS.of_nat P in
              let c := cos theta in
              let s := - sin theta in
              let re := fst (snd nv) in
              let im := snd (snd nv) in
              (fst acc + (re * c - im * s), snd acc + (re * s + im * c)))
           (combine (seq 0 P) input) (0, 0))
      (seq 0 P).

(** A transform that accepts both input formats and returns one pair per
    input element, as fft-js does. *)
Definition fft_dft (input : FftInput) : FftOutcome :=
  match input with
  | Phasors pairs => Arr (asPairs (dft pairs))
  | Alternating flat => Arr (asPairs (dft (map (fun v => (v, 0)) flat)))
  end.



(** A recording from its timestamps and per-axis values. *)
Definition recording (samples : list (float * (float * float * float))) : list AccelerometerData :=
  map (fun s => mkAccelerometerData (fst (fst (snd s))) (snd (fst (snd s))) (snd (snd s))
                                    (Some (fst s))) samples.

Definition idle : State := mkState false DebugInitial None.

(** Eight samples 10 ms apart; [x] oscillates with a period of four
    samples. *)
Definition steady8 : list AccelerometerData :=
  recording [(0, (0, 1, 0.5)); (10, (1, 1, 0.25)); (20, (0, 1, 0.5));
             (30, (-1, 1, 0.25)); (40, (0, 1, 0.5)); (50, (1, 1, 0.25));
             (60, (0, 1, 0.5)); (70, (-1, 1, 0.25))].

(** Four samples that carry the same timestamp. *)
Definition frozenClock : list AccelerometerData :=
  recording [(1000, (0, 1, 0.5)); (1000, (1, 1, 0.25)); (1000, (0, 1, 0.5));
             (1000, (-1, 1, 0.25))].

(** Three samples: too few. *)
Definition short3 : list AccelerometerData :=
  recording [(0, (0, 1, 0.5)); (10, (1, 1, 0.25)); (20, (0, 1, 0.5))].


End Standin.

(** ** What the screen draws from the results

    The expressions of the JSX that read [fftResults] and [recordedData]. *)

Module Render.

(** [arr.slice(start, stop)] for [0 <= start <= stop]. *)
Definition slice {A : Type} (start stop : nat) (arr : list A) : list A :=
  firstn (stop - start) (skipn start arr).

(** The series of the X-axis chart, line 586:
    [magnitudes.slice(1, 32).map(val => val + 0.1)]. *)
Definition chartDataX (magnitudes : list float) : list float :=
  map (fun val => val + 0x1.999999999999ap-4) (slice 1 32 magnitudes).

(** The series of the Y-axis and Z-axis charts, lines 621-623 and 656-658:
    [magnitudes.slice(1, 100)], or four zeros when that is empty. *)
Definition chartDataYZ (magnitudes : list float) : list float :=
  if (0 <? length (slice 1 100 magnitudes))%nat then slice 1 100 magnitudes
  else [0; 0; 0; 0].




(** The results block is rendered when [fftResults] is not [null],
    line 569. *)
Definition resultsShown (st : State) : bool :=
  match fftResults st with Some _ => true | None => false end.

End Render.

(** ** The recording session

    [startRecording], the listener it installs and [stopRecording], over the
    state and refs they touch.  The sensor subscription itself and the timers
    belong to the platform; of the timer only whether [recordingRef] holds
    one is kept. *)

Module Session.

(** The alerts the handlers raise. *)
Inductive Alert :=
| NoDataCollected.

Record Screen := mkScreen {
  data : AccelerometerData;
  isRecording : bool;
  recordedData : list AccelerometerData;
  analysis : State;
  dataCollection : list AccelerometerData;
  recordingTimer : bool;
  alerts : list Alert
}.

(** A reading of the sensor and the value of [Date.now()] when it
    arrives. *)
Record Reading := mkReading {
  now : float;
  rx : float;
  ry : float;
  rz : float
}.

(** [{ ...accelerometerData, timestamp: Date.now() }], lines 168-171. *)
Definition timestamped (r : Reading) : AccelerometerData :=
  mkAccelerometerData (rx r) (ry r) (rz r) (Some (now r)).

(** The synchronous part of [startRecording], lines 150-153: the collection,
    the recorded data and the results are reset. *)
Definition startRecording (s : Screen) : Screen :=
  mkScreen (data s) (isRecording s) []
           (mkState (isProcessing (analysis s)) (debugInfo (analysis s)) None)
           [] (recordingTimer s) (alerts s).

(** The delayed part of [startRecording], lines 182-189, once the listener is
    installed: recording is on and the ten-second timer is set. *)
Definition recordingStarted (s : Screen) : Screen :=
  mkScreen (data s) true (recordedData s) (analysis s) (dataCollection s) true (alerts s).

(** The listener of the recording subscription, lines 167-180. *)
Definition onReading (s : Screen) (r : Reading) : Screen :=
  mkScreen (timestamped r) (isRecording s) (recordedData s) (analysis s)
           (dataCollection s ++ [timestamped r]) (recordingTimer s) (alerts s).

Section Stop.

Variable cos_impl : float -> float.
Variable fft : FftInput -> FftOutcome.

(** [stopRecording], lines 196-227. *)
Definition stopRecording (s : Screen) : Screen :=
  let collectedData := dataCollection s in
  if (0 <? length collectedData)%nat then
    mkScreen (data s) false collectedData
             (processData cos_impl fft (analysis s) collectedData)
             (dataCollection s) false (alerts s)
  else
    mkScreen (data s) false (recordedData s) (analysis s)
             (dataCollection s) false (alerts s ++ [NoDataCollected]).

(** A whole session: start, the readings that arrive, stop. *)
Definition session (s : Screen) (readings : list Reading) : Screen :=
  stopRecording (fold_left onReading readings (recordingStarted (startRecording s))).

End Stop.



End Session.


(** A magnitude that passes the filter of [getDominantFrequencies]: neither
    NaN nor infinite, and above zero. *)
Definition validMagnitude (mag : float) : bool :=
  negb (JS.isNaN mag) && JS.isFinite mag && (0 <? mag).

(** The bin indices an output carries, in order. *)
Definition indices (peaks : list Peak) : list nat :=
  flat_map (fun p => match index p with Some i => [i] | None => [] end) peaks.

(** Specification-level values that are not below zero: NaN, the zeros and
    the positive numbers. *)
Definition not_negative (r : spec_float) : Prop :=
  match r with
  | S754_finite true _ _ | S754_infinity true => False
  | _ => True
  end.

(** Values whose sign bit is clear, and NaN. *)
Definition sign_clear (r : spec_float) : Prop :=
  match r with
  | S754_zero true | S754_finite true _ _ | S754_infinity true => False
  | _ => True
  end.

Definition not_nan (r : spec_float) : Prop :=
  match r with S754_nan => False | _ => True end.

Definition finite_or_zero (r : spec_float) : Prop :=
  match r with S754_zero _ | S754_finite _ _ _ => True | _ => False end.

(** ** Vocabulary of the statements *)

(** A positive finite number: what survives the filter of line 737. *)
Definition posfin (v : float) : Prop :=
  exists m e, Prim2SF v = S754_finite false m e.

(** The specification-level results with a positive sign, and the others. *)
Definition pos_result (r : spec_float) : Prop :=
  match r with
  | S754_finite false _ _ | S754_infinity false => True
  | _ => False
  end.

Definition nonpos_result (r : spec_float) : Prop :=
  match r with
  | S754_finite false _ _ | S754_infinity false => False
  | _ => True
  end.

(** [a] has a smaller bin index than [b], when both carry one. *)
Definition index_lt (a b : Peak) : Prop :=
  forall i j, index a = Some i -> index b = Some j -> (i < j)%nat.

(** [a] may precede [b] in the ranking: its magnitude is not smaller, and on
    equal magnitudes its bin index is the smaller one. *)
Definition ranks_before (a b : Peak) : Prop :=
  (magnitude b <=? magnitude a) = true /\
  (magnitude a = magnitude b -> index_lt a b).

(** The placeholder entry of line 741. *)
Definition placeholder : Peak := mkPeak None 0 0.

(** ** Facts about binary64 arithmetic

    Derived from the specification of the primitive operations
    ([FloatAxioms]) and of rounding ([SpecFloat]). *)

Module FloatFacts.

Local Open Scope Z_scope.

Lemma digits2_pos_bounds (p : positive) :
  2 ^ (Z.pos (digits2_pos p) - 1) <= Z.pos p < 2 ^ Z.pos (digits2_pos p).
Proof.
  induction p as [p IH | p IH |]; cbn [digits2_pos].
  - rewrite Pos2Z.inj_succ.
    replace (Z.succ (Z.pos (digits2_pos p)) - 1)
      with (Z.succ (Z.pos (digits2_pos p) - 1)) by lia.
    rewrite !Z.pow_succ_r by lia. lia.
  - rewrite Pos2Z.inj_succ.
    replace (Z.succ (Z.pos (digits2_pos p)) - 1)
      with (Z.succ (Z.pos (digits2_pos p) - 1)) by lia.
    rewrite !Z.pow_succ_r by lia. lia.
  - cbn. lia.
Qed.

Lemma iter_xO_value (d m : positive) :
  Z.pos (Pos.iter xO m d) = Z.pos m * 2 ^ Z.pos d.
Proof.
  induction d using Pos.peano_ind.
  - cbn. lia.
  - rewrite Pos.iter_succ, Pos2Z.inj_xO, IHd, Pos2Z.inj_succ, Z.pow_succ_r by lia. lia.
Qed.

(** One right shift halves a non-negative mantissa. *)
Lemma shr_1_m (mrs : shr_record) :
  0 <= shr_m mrs -> shr_m (shr_1 mrs) = shr_m mrs / 2.
Proof.
  destruct mrs as [m r s]; cbn [shr_m]. intros Hm.
  destruct m as [|p|p]; [reflexivity| |lia].
  destruct p as [p|p|]; cbn [shr_1 shr_m].
  - rewrite Pos2Z.inj_xI. apply Z.div_unique with (r := 1); lia.
  - rewrite Pos2Z.inj_xO. apply Z.div_unique with (r := 0); lia.
  - reflexivity.
Qed.

Lemma iter_shr_1_m (n : positive) : forall mrs,
  0 <= shr_m mrs ->
  0 <= shr_m (iter_pos shr_1 n mrs) /\
  shr_m (iter_pos shr_1 n mrs) = shr_m mrs / 2 ^ Z.pos n.
Proof.
  induction n as [n IH | n IH |]; intros mrs Hm; cbn [iter_pos].
  - assert (H1 : 0 <= shr_m (shr_1 mrs))
      by (rewrite shr_1_m by lia; apply Z.div_pos; lia).
    destruct (IH _ H1) as [H2 E2]. destruct (IH _ H2) as [H3 E3].
    split; [exact H3|].
    rewrite E3, E2, shr_1_m by lia.
    rewrite !Z.div_div by lia. f_equal.
    replace 2 with (2 ^ 1) at 1 by reflexivity.
    rewrite <- !Z.pow_add_r by lia. f_equal. lia.
  - destruct (IH _ Hm) as [H2 E2]. destruct (IH _ H2) as [H3 E3].
    split; [exact H3|].
    rewrite E3, E2.
    rewrite !Z.div_div by lia. f_equal.
    rewrite <- Z.pow_add_r by lia. f_equal. lia.
  - rewrite shr_1_m by lia. split; [apply Z.div_pos; lia | reflexivity].
Qed.

Lemma shr_record_of_loc_m (m : Z) (l : location) :
  shr_m (shr_record_of_loc m l) = m.
Proof. destruct l as [|[ | | ]]; reflexivity. Qed.

(** A positive mantissa at an exponent not below [emin] stays positive when
    it is shifted to its canonical exponent: fewer bits are dropped than it
    has. *)
Lemma shr_fexp_pos (m : positive) (e : Z) (l : location) :
  emin <= e ->
  0 < shr_m (fst (shr_fexp prec emax (Z.pos m) e l)) /\
  emin <= snd (shr_fexp prec emax (Z.pos m) e l).
Proof.
  intros He. unfold shr_fexp, shr, fexp. cbn [Zdigits2].
  pose proof (digits2_pos_bounds m) as [Hlo _].
  set (d := Z.pos (digits2_pos m)) in *.
  destruct (Z.max (d + e - prec) emin - e) as [|n|n] eqn:En; cbn [fst snd];
    rewrite ?shr_record_of_loc_m; try lia.
  destruct (iter_shr_1_m n (shr_record_of_loc (Z.pos m) l)) as [_ ->];
    [rewrite shr_record_of_loc_m; lia|].
  rewrite shr_record_of_loc_m. split; [|lia].
  assert (Hn : Z.pos n <= d - 1) by (unfold prec in *; lia).
  apply Z.div_str_pos. split; [apply Z.pow_pos_nonneg; lia|].
  apply Z.le_trans with (2 ^ (d - 1)); [apply Z.pow_le_mono_r; lia | lia].
Qed.

Lemma round_nearest_even_pos (m : Z) (l : location) :
  0 < m -> 0 < round_nearest_even m l.
Proof.
  intros Hm. unfold round_nearest_even.
  destruct l as [|[ | | ]]; try lia. destruct (Z.even m); lia.
Qed.

Lemma binary_round_aux_pos (m : positive) (e : Z) (l : location) :
  emin <= e -> pos_result (binary_round_aux prec emax false (Z.pos m) e l).
Proof.
  intros He. unfold binary_round_aux.
  pose proof (shr_fexp_pos m e l He) as [H1 H1'].
  destruct (shr_fexp prec emax (Z.pos m) e l) as [mrs' e'] eqn:E1.
  cbn [fst snd] in *.
  pose proof (round_nearest_even_pos _ (loc_of_shr_record mrs') H1) as H2.
  destruct (round_nearest_even (shr_m mrs') (loc_of_shr_record mrs'))
    as [|m2|m2] eqn:E2; try lia.
  pose proof (shr_fexp_pos m2 e' loc_Exact H1') as [H3 _].
  destruct (shr_fexp prec emax (Z.pos m2) e' loc_Exact) as [mrs'' e''] eqn:E3.
  cbn [fst snd] in *.
  destruct (shr_m mrs''); try lia.
  destruct (e'' <=? emax - prec); exact I.
Qed.

Lemma binary_round_aux_neg (m e : Z) (l : location) :
  nonpos_result (binary_round_aux prec emax true m e l).
Proof.
  unfold binary_round_aux.
  destruct (shr_fexp prec emax m e l) as [mrs' e'].
  destruct (shr_fexp prec emax _ e' loc_Exact) as [mrs'' e''].
  destruct (shr_m mrs''); try exact I.
  destruct (e'' <=? emax - prec); exact I.
Qed.

Lemma shl_align_fst (m : positive) (e e' : Z) :
  e' <= e -> Z.pos (fst (shl_align m e e')) = Z.pos m * 2 ^ (e - e').
Proof.
  intros Hle. unfold shl_align.
  destruct (e' - e) as [|d|d] eqn:Ed; cbn [fst]; try lia.
  - replace (e - e') with 0 by lia. cbn. lia.
  - rewrite iter_xO_value. f_equal. f_equal. lia.
Qed.

Lemma shl_align_snd_ge (m : positive) (e e' lo : Z) :
  lo <= e -> lo <= e' -> lo <= snd (shl_align m e e').
Proof.
  intros H1 H2. unfold shl_align. destruct (e' - e); cbn [snd]; lia.
Qed.

Lemma binary_round_pos (m : positive) (e : Z) :
  emin <= e -> pos_result (binary_round prec emax false m e).
Proof.
  intros He. unfold binary_round.
  pose proof (shl_align_snd_ge m e (fexp prec emax (Z.pos (digits2_pos m) + e)) emin He) as Hs.
  destruct (shl_align m e _) as [mz ez]. cbn [snd] in Hs.
  apply binary_round_aux_pos. apply Hs. unfold fexp. lia.
Qed.

Lemma binary_round_neg (m : positive) (e : Z) :
  nonpos_result (binary_round prec emax true m e).
Proof.
  unfold binary_round. destruct (shl_align m e _) as [mz ez].
  apply binary_round_aux_neg.
Qed.

(** What a canonical representation says about exponent and digits. *)
Lemma bounded_canonical (m : positive) (e : Z) :
  bounded prec emax m e = true ->
  emin <= e /\ Z.pos (digits2_pos m) <= prec /\
  (emin < e -> Z.pos (digits2_pos m) = prec).
Proof.
  unfold bounded, canonical_mantissa, fexp. intros H.
  apply andb_prop in H as [H _]. apply Z.eqb_eq in H. lia.
Qed.

Lemma posfin_bounded (v : float) (m : positive) (e : Z) :
  Prim2SF v = S754_finite false m e -> bounded prec emax m e = true.
Proof.
  intros H. pose proof (Prim2SF_valid v) as Hv. rewrite H in Hv. exact Hv.
Qed.

(** The aligned mantissas of two positive finite numbers compare as the
    numbers do. *)
Lemma aligned_compare (ma mb : positive) (ea eb : Z) :
  bounded prec emax ma ea = true -> bounded prec emax mb eb = true ->
  let ez := Z.min eb ea in
  let A := Z.pos (fst (shl_align ma ea ez)) in
  let B := Z.pos (fst (shl_align mb eb ez)) in
  match SFcompare (S754_finite false ma ea) (S754_finite false mb eb) with
  | Some Lt => A < B
  | Some Eq => A = B
  | Some Gt => B < A
  | None => False
  end.
Proof.
  intros Ha Hb ez A B. subst A B.
  apply bounded_canonical in Ha as (Ha1 & Ha2 & Ha3).
  apply bounded_canonical in Hb as (Hb1 & Hb2 & Hb3).
  pose proof (digits2_pos_bounds ma) as [Hal Hau].
  pose proof (digits2_pos_bounds mb) as [Hbl Hbu].
  rewrite !shl_align_fst by (subst ez; lia).
  cbn [SFcompare].
  destruct (Z.compare_spec ea eb) as [E|E|E].
  - subst eb. replace ez with ea by (subst ez; lia).
    rewrite Z.sub_diag, !Z.mul_1_r.
    change (Pos.compare_cont Eq ma mb) with (Pos.compare ma mb).
    destruct (Pos.compare_spec ma mb); subst; lia.
  - replace ez with ea by (subst ez; lia). rewrite Z.sub_diag, Z.mul_1_r.
    rewrite (Hb3 ltac:(lia)) in Hbl.
    assert (Z.pos ma < 2 ^ prec).
    { eapply Z.lt_le_trans; [exact Hau|]. apply Z.pow_le_mono_r; lia. }
    assert (2 ^ 1 <= 2 ^ (eb - ea)) by (apply Z.pow_le_mono_r; lia).
    change (2 ^ 1) with 2 in *.
    assert (2 ^ prec = 2 ^ (prec - 1) * 2) by reflexivity.
    nia.
  - replace ez with eb by (subst ez; lia). rewrite Z.sub_diag, Z.mul_1_r.
    rewrite (Ha3 ltac:(lia)) in Hal.
    assert (Z.pos mb < 2 ^ prec).
    { eapply Z.lt_le_trans; [exact Hbu|]. apply Z.pow_le_mono_r; lia. }
    assert (2 ^ 1 <= 2 ^ (ea - eb)) by (apply Z.pow_le_mono_r; lia).
    change (2 ^ 1) with 2 in *.
    assert (2 ^ prec = 2 ^ (prec - 1) * 2) by reflexivity.
    nia.
Qed.

Lemma SFltb_zero_pos (r : spec_float) :
  pos_result r -> SFltb (S754_zero false) r = true.
Proof.
  destruct r as [s|[|]| |[|] m e]; cbn; intros H; try contradiction; reflexivity.
Qed.

Lemma SFltb_zero_nonpos (r : spec_float) :
  nonpos_result r -> SFltb (S754_zero false) r = false.
Proof.
  destruct r as [s|[|]| |[|] m e]; cbn; intros H; try contradiction; reflexivity.
Qed.

Local Open Scope float_scope.

(** For positive finite [a] and [b] the difference [b - a] is positive
    exactly when [a < b]: the subtraction neither rounds a positive
    difference to zero nor changes its sign. *)
Lemma sub_pos_iff_lt (a b : float) :
  posfin a -> posfin b -> (0 <? b - a) = (a <? b).
Proof.
  intros (ma & ea & Ha) (mb & eb & Hb).
  rewrite !ltb_spec, sub_spec, Ha, Hb.
  change (Prim2SF 0) with (S754_zero false).
  pose proof (aligned_compare ma mb ea eb (posfin_bounded _ _ _ Ha)
                (posfin_bounded _ _ _ Hb)) as Hc.
  cbv zeta in Hc.
  unfold SF64sub, SFsub, cond_Zopp, binary_normalize.
  assert (Hez : (emin <= Z.min eb ea)%Z).
  { pose proof (bounded_canonical _ _ (posfin_bounded _ _ _ Ha)).
    pose proof (bounded_canonical _ _ (posfin_bounded _ _ _ Hb)). lia. }
  unfold SFltb at 2.
  destruct (SFcompare (S754_finite false ma ea) (S754_finite false mb eb))
    as [[ | | ]|]; try contradiction.
  - rewrite Hc, Z.sub_diag. reflexivity.
  - destruct (_ - _)%Z as [|d|d] eqn:Ed; try lia.
    apply SFltb_zero_pos, binary_round_pos, Hez.
  - destruct (_ - _)%Z as [|d|d] eqn:Ed; try lia.
    apply SFltb_zero_nonpos, binary_round_neg.
Qed.

(** A number above zero that is no infinity is positive and finite. *)
Lemma posfin_intro (v : float) :
  is_infinity v = false -> (0 <? v) = true -> posfin v.
Proof.
  intros Hi Hp. rewrite ltb_spec in Hp.
  change (Prim2SF 0) with (S754_zero false) in Hp.
  unfold is_infinity in Hi. rewrite eqb_spec, abs_spec in Hi.
  change (Prim2SF infinity) with (S754_infinity false) in Hi.
  destruct (Prim2SF v) as [s|s| |s m e] eqn:E; cbn in Hp, Hi; try discriminate.
  destruct s; [discriminate|]. exists m, e. exact E.
Qed.

Lemma posfin_compare (a b : float) :
  posfin a -> posfin b ->
  exists ma ea mb eb,
    Prim2SF a = S754_finite false ma ea /\
    Prim2SF b = S754_finite false mb eb /\
    SFcompare (Prim2SF a) (Prim2SF b) =
      Some match Z.compare ea eb with
           | Lt => Lt
           | Gt => Gt
           | Eq => Pos.compare ma mb
           end.
Proof.
  intros (ma & ea & Ha) (mb & eb & Hb). exists ma, ea, mb, eb.
  rewrite Ha, Hb. auto.
Qed.

Lemma ltb_leb (a b : float) : (a <? b) = true -> (a <=? b) = true.
Proof.
  rewrite ltb_spec, leb_spec. unfold SFltb, SFleb.
  destruct (SFcompare _ _) as [[ | | ]|]; congruence.
Qed.

Lemma ltb_irrefl (a : float) : posfin a -> (a <? a) = false.
Proof.
  intros Ha.
  destruct (posfin_compare a a Ha Ha) as (ma & ea & mb & eb & E1 & E2 & Hc).
  rewrite ltb_spec. unfold SFltb. rewrite Hc.
  rewrite E1 in E2. injection E2 as <- <-.
  rewrite Z.compare_refl, Pos.compare_refl. reflexivity.
Qed.

Lemma nltb_leb (a b : float) :
  posfin a -> posfin b -> (a <? b) = false -> (b <=? a) = true.
Proof.
  intros Ha Hb.
  destruct (posfin_compare a b Ha Hb) as (ma & ea & mb & eb & E1 & E2 & Hab).
  destruct (posfin_compare b a Hb Ha) as (mb' & eb' & ma' & ea' & E3 & E4 & Hba).
  rewrite E1 in E4. rewrite E2 in E3. injection E3 as <- <-. injection E4 as <- <-.
  rewrite ltb_spec, leb_spec. unfold SFltb, SFleb. rewrite Hab, Hba.
  rewrite (Z.compare_antisym ea eb), (Pos.compare_antisym ma mb).
  destruct (ea ?= eb)%Z; cbn; try congruence.
  destruct (ma ?= mb)%positive; cbn; congruence.
Qed.

Lemma leb_trans (a b c : float) :
  posfin a -> posfin b -> posfin c ->
  (a <=? b) = true -> (b <=? c) = true -> (a <=? c) = true.
Proof.
  intros Ha Hb Hc.
  destruct (posfin_compare a b Ha Hb) as (ma & ea & mb & eb & E1 & E2 & Hab).
  destruct (posfin_compare b c Hb Hc) as (mb' & eb' & mc & ec & E3 & E4 & Hbc).
  destruct (posfin_compare a c Ha Hc) as (ma' & ea' & mc' & ec' & E5 & E6 & Hac).
  rewrite E2 in E3. rewrite E1 in E5. rewrite E4 in E6.
  injection E3 as <- <-. injection E5 as <- <-. injection E6 as <- <-.
  rewrite !leb_spec. unfold SFleb. rewrite Hab, Hbc, Hac.
  destruct (Z.compare_spec ea eb), (Z.compare_spec eb ec), (Z.compare_spec ea ec);
    try lia; try congruence; subst;
    destruct (Pos.compare_spec ma mb), (Pos.compare_spec mb mc),
      (Pos.compare_spec ma mc);
    try lia; congruence.
Qed.

(** NaN absorbs a product. *)
Lemma mul_nan_r (v : float) : v * nan = nan.
Proof.
  apply Prim2SF_inj. rewrite FloatAxioms.mul_spec.
  change (Prim2SF nan) with S754_nan.
  destruct (Prim2SF v); reflexivity.
Qed.

(** A number that is neither NaN nor an infinity minus itself is [+0]. *)
Lemma sub_diag_zero (v : float) :
  is_nan v = false -> is_infinity v = false -> v - v = 0.
Proof.
  intros Hn Hi. apply Prim2SF_inj. rewrite sub_spec.
  unfold is_nan in Hn. rewrite eqb_spec in Hn.
  unfold is_infinity in Hi. rewrite eqb_spec, abs_spec in Hi.
  change (Prim2SF infinity) with (S754_infinity false) in Hi.
  change (Prim2SF 0) with (S754_zero false).
  destruct (Prim2SF v) as [[|]|s| |s m e]; cbn in Hn, Hi; try discriminate;
    try reflexivity.
  unfold SF64sub, SFsub. now rewrite Z.sub_diag.
Qed.

Lemma div_nan_l (v : float) : nan / v = nan.
Proof.
  apply Prim2SF_inj. rewrite div_spec.
  change (Prim2SF nan) with S754_nan. reflexivity.
Qed.

(** A positive number divided by [+0] is [+Infinity]. *)
Lemma div_pos_zero (a : float) : pos_result (Prim2SF a) -> a / 0 = infinity.
Proof.
  intros Ha. apply Prim2SF_inj. rewrite div_spec.
  change (Prim2SF 0) with (S754_zero false).
  change (Prim2SF infinity) with (S754_infinity false).
  destruct (Prim2SF a) as [s|[|]| |[|] m e]; cbn in Ha; try contradiction; reflexivity.
Qed.

(** The length of a non-empty array converts to a positive number. *)
Lemma of_nat_pos (n : nat) :
  (1 <= n)%nat -> (Z.of_nat n < 2 ^ 32)%Z -> pos_result (Prim2SF (JS.of_nat n)).
Proof.
  intros H1 H2. unfold JS.of_nat.
  rewrite of_uint63_spec, Uint63.of_Z_spec.
  rewrite Z.mod_small.
  2:{ split; [lia|]. eapply Z.lt_trans; [exact H2|]. reflexivity. }
  destruct (Z.of_nat n) as [|p|p] eqn:E; try lia.
  cbn [binary_normalize]. apply binary_round_pos. discriminate.
Qed.

End FloatFacts.

(** ** Arrays *)

Section ArrayFacts.

Context {A B : Type}.

Lemma mapi_from_length (f : A -> nat -> B) (arr : list A) : forall start,
  length (JS.mapi_from f start arr) = length arr.
Proof.
  induction arr as [|a arr IH]; intros start; cbn; [reflexivity|].
  now rewrite IH.
Qed.

Lemma mapi_from_nth_error (f : A -> nat -> B) (arr : list A) : forall start i,
  nth_error (JS.mapi_from f start arr) i =
  option_map (fun value => f value (start + i)%nat) (nth_error arr i).
Proof.
  induction arr as [|a arr IH]; intros start i.
  - destruct i; reflexivity.
  - destruct i as [|i]; cbn.
    + now rewrite Nat.add_0_r.
    + rewrite IH. now rewrite Nat.add_succ_r.
Qed.

Lemma mapi_nth_error (f : A -> nat -> B) (arr : list A) (i : nat) :
  nth_error (JS.mapi f arr) i = option_map (fun value => f value i) (nth_error arr i).
Proof. unfold JS.mapi. now rewrite mapi_from_nth_error. Qed.

Lemma map_firstn_nth_error (f : A -> B) (arr : list A) (k i : nat) :
  (i < k)%nat ->
  nth_error (map f (firstn k arr)) i = option_map f (nth_error arr i).
Proof.
  intros Hi. rewrite nth_error_map, nth_error_firstn.
  apply Nat.ltb_lt in Hi. now rewrite Hi.
Qed.

End ArrayFacts.

(** ** Zero padding *)

Lemma padZeros_app (n : nat) : forall data,
  padZeros n data = data ++ repeat 0 n.
Proof.
  induction n as [|n IH]; intros data; cbn [padZeros repeat].
  - now rewrite app_nil_r.
  - rewrite IH, <- app_assoc. reflexivity.
Qed.

Lemma nextPow2_ge (len : nat) : (len <= nextPow2 len)%nat.
Proof.
  destruct len as [|[|n]]; cbn [nextPow2]; [lia | cbn; lia |].
  apply Nat.log2_up_spec. lia.
Qed.

Lemma nextPow2_least (len k : nat) :
  (1 <= len)%nat -> (len <= 2 ^ k)%nat -> (Nat.log2_up len <= k)%nat.
Proof. intros H1 H2. apply Nat.log2_up_le_pow2; lia. Qed.

Lemma paddedData_app (timeData : list float) :
  paddedData timeData =
  timeData ++ repeat 0 (nextPow2 (length timeData) - length timeData).
Proof. unfold paddedData. apply padZeros_app. Qed.

Lemma paddedData_length (timeData : list float) :
  length (paddedData timeData) = nextPow2 (length timeData).
Proof.
  rewrite paddedData_app, length_app, repeat_length.
  pose proof (nextPow2_ge (length timeData)). lia.
Qed.

Lemma applyHannWindow_length (cos_impl : float -> float) (data : list float) :
  length (applyHannWindow cos_impl data) = length data.
Proof. unfold applyHannWindow, JS.mapi. apply mapi_from_length. Qed.

Lemma windowedData_length (cos_impl : float -> float) (timeData : list float) :
  length (windowedData cos_impl timeData) = nextPow2 (length timeData).
Proof.
  unfold windowedData. now rewrite applyHannWindow_length, paddedData_length.
Qed.

(** Two distinct closed numbers are told apart by evaluation. *)
Ltac float_neq H :=
  match type of H with
  | ?a = ?b =>
      let E := fresh "E" in
      assert (E : PrimFloat.Leibniz.eqb a b = PrimFloat.Leibniz.eqb b b)
        by (rewrite H; reflexivity);
      vm_compute in E; discriminate E
  end.

(** ** The window function *)

(** C4, as the code has it: [applyHannWindow] keeps the length, and element
    [i] of the result is element [i] of the input times
    [0.5 * (1 - cos (2 pi i / (N - 1)))], for every length [N]; nothing
    guards the zero denominator, so for [N = 1] the single result is NaN
    whatever the input. *)
Theorem hann_window_elements (cos_impl : float -> float) (data : list float) :
  length (applyHannWindow cos_impl data) = length data /\
  (forall i,
     nth_error (applyHannWindow cos_impl data) i =
     option_map
       (fun value =>
          value * (0.5 * (1 - JS.Math_cos cos_impl
                                ((2 * JS.Math_PI * JS.of_nat i)
                                 / (JS.of_nat (length data) - 1)))))
       (nth_error data i)) /\
  (length data = 1%nat -> applyHannWindow cos_impl data = [nan]).
Proof.
  split; [apply applyHannWindow_length|]. split.
  - intros i. unfold applyHannWindow. now rewrite mapi_nth_error.
  - intros H1. destruct data as [|v [|w data]]; try discriminate H1.
    unfold applyHannWindow, JS.mapi. cbn [JS.mapi_from length].
    f_equal.
    change (JS.Math_cos cos_impl _) with nan.
    change (0.5 * (1 - nan)) with nan.
    apply FloatFacts.mul_nan_r.
Qed.

(** C4 fails for [N = 1]: the window of the one-element sequence [7] is
    [NaN], not the original value. *)
Lemma hann_window_single_is_nan :
  applyHannWindow Standin.cos_poly [7] = [nan] /\
  applyHannWindow Standin.cos_poly [7] <> [7].
Proof.
  split; [vm_compute; reflexivity|].
  intros H. apply (f_equal (hd 0)) in H. vm_compute in H. float_neq H.
Qed.

(** ** Padding, windowing and the magnitude spectrum *)

(** C7: for a sequence of length [L >= 1], [performFFT] pads to
    [P = 2 ^ k] with [k] the least exponent such that [L <= 2 ^ k] (the
    ceiling of the binary logarithm), so [P >= L] and [P = L] when [L] is a
    power of two; the padded sequence is the original followed by zeros; and
    the Hann window is applied to the padded sequence, whose transform gives
    the result. *)
Theorem performFFT_pads_then_windows
    (cos_impl : float -> float) (fft : FftInput -> FftOutcome)
    (timeData : list float) :
  (1 <= length timeData)%nat ->
  let L := length timeData in
  let P := nextPow2 L in
  (exists k, P = (2 ^ k)%nat /\ (L <= 2 ^ k)%nat /\
             forall j, (L <= 2 ^ j)%nat -> (k <= j)%nat) /\
  (L <= P)%nat /\
  (forall k, L = (2 ^ k)%nat -> P = L) /\
  paddedData timeData = timeData ++ repeat 0 (P - L) /\
  length (paddedData timeData) = P /\
  windowedData cos_impl timeData =
    applyHannWindow cos_impl (timeData ++ repeat 0 (P - L)) /\
  performFFT cos_impl fft timeData =
    match callFft fft (applyHannWindow cos_impl (timeData ++ repeat 0 (P - L))) with
    | Arr fftResult => magnitudesOf fftResult P
    | Throws | NotArray => fftFallback timeData
    end.
Proof.
  intros HL L P.
  assert (HP : P = (2 ^ Nat.log2_up L)%nat).
  { unfold P, nextPow2, L. destruct (length timeData) eqn:E; [lia | reflexivity]. }
  pose proof (nextPow2_ge L) as Hge. fold P in Hge.
  split; [|split; [exact Hge|split]].
  - exists (Nat.log2_up L). split; [exact HP|]. split; [lia|].
    intros j Hj. now apply nextPow2_least.
  - intros k Hk. rewrite HP, Hk. now rewrite Nat.log2_up_pow2 by lia.
  - split; [apply paddedData_app|]. split; [apply paddedData_length|].
    split.
    + unfold windowedData. now rewrite paddedData_app.
    + unfold performFFT. rewrite windowedData_length.
      unfold windowedData. now rewrite paddedData_app.
Qed.

Lemma nextPow2_even (len : nat) :
  (2 <= len)%nat -> ((nextPow2 len + 1) / 2 = nextPow2 len / 2)%nat /\
                    (2 * (nextPow2 len / 2) = nextPow2 len)%nat.
Proof.
  intros H. unfold nextPow2. destruct len as [|n]; [lia|].
  assert (Hk : (1 <= Nat.log2_up (S n))%nat).
  { apply Nat.log2_up_lt_pow2; [lia|]. cbn. lia. }
  destruct (Nat.log2_up (S n)) as [|k]; [lia|].
  rewrite Nat.pow_succ_r'. set (q := (2 ^ k)%nat).
  assert (E1 : (2 * q / 2 = q)%nat) by (rewrite Nat.mul_comm; apply Nat.div_mul; lia).
  assert (E2 : ((2 * q + 1) / 2 = q)%nat)
    by (symmetry; apply Nat.div_unique with (r := 1%nat); lia).
  rewrite E1, E2. lia.
Qed.

Lemma firstIsArray_asPairs (coefficients : list (float * float)) :
  coefficients <> [] -> firstIsArray (asPairs coefficients) = true.
Proof. destruct coefficients; [congruence | reflexivity]. Qed.

Lemma magnitudesOf_asPairs (coefficients : list (float * float)) (paddedLength : nat) :
  coefficients <> [] ->
  magnitudesOf (asPairs coefficients) paddedLength =
  map (normalisedMagnitude paddedLength)
      (firstn ((length coefficients + 1) / 2) coefficients).
Proof.
  intros Hne. unfold magnitudesOf. rewrite firstIsArray_asPairs by exact Hne.
  unfold asPairs. rewrite length_map, firstn_map, map_map. reflexivity.
Qed.

Lemma asFlat_length (coefficients : list (float * float)) :
  length (asFlat coefficients) = (2 * length coefficients)%nat.
Proof.
  unfold asFlat. induction coefficients as [|c cs IH]; [reflexivity|].
  cbn [flat_map app length]. rewrite IH. lia.
Qed.

Lemma asFlat_nth_error (coefficients : list (float * float)) : forall i,
  nth_error (asFlat coefficients) (i * 2) =
    option_map (fun c => ENum (fst c)) (nth_error coefficients i) /\
  nth_error (asFlat coefficients) (i * 2 + 1) =
    option_map (fun c => ENum (snd c)) (nth_error coefficients i).
Proof.
  induction coefficients as [|c cs IH]; intros i.
  - destruct i; cbn; [split; reflexivity|].
    split; destruct (i * 2 + 1)%nat; reflexivity.
  - destruct i as [|i]; [split; reflexivity|].
    specialize (IH i). unfold asFlat in *.
    cbn [flat_map app Nat.mul Nat.add nth_error]. exact IH.
Qed.

Lemma magnitudesOf_asFlat (coefficients : list (float * float)) (paddedLength : nat) :
  magnitudesOf (asFlat coefficients) paddedLength =
  map (normalisedMagnitude paddedLength)
      (firstn ((2 * length coefficients + 3) / 4) coefficients).
Proof.
  unfold magnitudesOf.
  assert (Hfirst : firstIsArray (asFlat coefficients) = false)
    by (destruct coefficients; reflexivity).
  rewrite Hfirst, asFlat_length.
  set (n := ((2 * length coefficients + 3) / 4)%nat).
  assert (Hn : (n <= length coefficients)%nat).
  { pose proof (Nat.Div0.mul_div_le (2 * length coefficients + 3) 4) as Hd.
    fold n in Hd. lia. }
  apply nth_error_ext. intros i.
  rewrite !nth_error_map, nth_error_seq, nth_error_firstn.
  destruct (i <? n)%nat eqn:Hi; [|reflexivity].
  apply Nat.ltb_lt in Hi. cbn [Nat.add option_map].
  destruct (asFlat_nth_error coefficients i) as [Ere Eim]. rewrite Ere, Eim.
  destruct (nth_error coefficients i) as [c|] eqn:Ec.
  - reflexivity.
  - apply nth_error_None in Ec. lia.
Qed.

(** When the transform returns the [P] coefficients, in either format, the
    spectrum is the normalised magnitude of the first half of them. *)
Lemma performFFT_of_coefficients
    (cos_impl : float -> float) (fft : FftInput -> FftOutcome)
    (timeData : list float) (coefficients : list (float * float)) :
  (2 <= length timeData)%nat ->
  callFft fft (windowedData cos_impl timeData) = Arr (asPairs coefficients) \/
  callFft fft (windowedData cos_impl timeData) = Arr (asFlat coefficients) ->
  length coefficients = nextPow2 (length timeData) ->
  performFFT cos_impl fft timeData =
  map (normalisedMagnitude (nextPow2 (length timeData)))
      (firstn (nextPow2 (length timeData) / 2) coefficients).
Proof.
  intros HL Hfft Hlen.
  destruct (nextPow2_even (length timeData) HL) as [Hhalf Hdouble].
  unfold performFFT. rewrite windowedData_length.
  destruct Hfft as [Hfft|Hfft]; rewrite Hfft.
  - assert (Hne : coefficients <> []).
    { intros ->. cbn in Hlen. pose proof (nextPow2_ge (length timeData)). lia. }
    rewrite magnitudesOf_asPairs by exact Hne. now rewrite Hlen, Hhalf.
  - rewrite magnitudesOf_asFlat, Hlen. do 2 f_equal.
    set (P := nextPow2 (length timeData)) in *.
    symmetry. apply Nat.div_unique with (r := 3%nat); lia.
Qed.

Lemma callFft_of_phasors
    (fft : FftInput -> FftOutcome) (windowed : list float) (fftResult : list JsElem) :
  fft (Phasors (phasors windowed)) = Arr fftResult ->
  callFft fft windowed = Arr fftResult.
Proof. intros H. unfold callFft. now rewrite H. Qed.

(** C8: when the transform of the padded, windowed sequence (length [P])
    succeeds with its [P] coefficients, as pairs or as a flat alternating
    array, the magnitude spectrum has exactly [P / 2] entries, and entry [i]
    is [sqrt (re_i^2 + im_i^2) / P] for coefficient [i] of the first half. *)
Theorem magnitude_spectrum_first_half
    (cos_impl : float -> float) (fft : FftInput -> FftOutcome)
    (timeData : list float) (coefficients : list (float * float)) :
  (2 <= length timeData)%nat ->
  callFft fft (windowedData cos_impl timeData) = Arr (asPairs coefficients) \/
  callFft fft (windowedData cos_impl timeData) = Arr (asFlat coefficients) ->
  length coefficients = nextPow2 (length timeData) ->
  let P := nextPow2 (length timeData) in
  length (performFFT cos_impl fft timeData) = (P / 2)%nat /\
  forall i, (i < P / 2)%nat ->
    nth_error (performFFT cos_impl fft timeData) i =
    option_map (fun c => JS.Math_sqrt (fst c * fst c + snd c * snd c) / JS.of_nat P)
               (nth_error coefficients i).
Proof.
  intros HL Hfft Hlen P.
  rewrite (performFFT_of_coefficients cos_impl fft timeData coefficients HL Hfft Hlen).
  fold P. split.
  - rewrite length_map, length_firstn. fold P in Hlen.
    pose proof (nextPow2_even (length timeData) HL) as [_ Hd]. fold P in Hd. lia.
  - intros i Hi. now rewrite map_firstn_nth_error.
Qed.

(** ** The recording as a whole *)

(** With at least four samples [processData] reaches the end of its [try]
    block: it records the statistics and stores the three spectra with one
    shared frequency axis. *)
Lemma processData_run
    (cos_impl : float -> float) (fft : FftInput -> FftOutcome)
    (st : State) (data : list AccelerometerData) :
  (4 <= length data)%nat ->
  exists first last,
    nth_error data 0 = Some first /\
    nth_error data (length data - 1) = Some last /\
    processData cos_impl fft st data =
      let duration := durationSeconds first last in
      let rate := samplingRate (length data) duration in
      let fftX := performFFT cos_impl fft (map x data) in
      let bins := frequencyBins (length fftX) rate in
      mkState false (DebugStats (length data) duration rate)
        (Some (mkFftResults
                 (mkAxisSpectrum bins fftX)
                 (mkAxisSpectrum bins (performFFT cos_impl fft (map y data)))
                 (mkAxisSpectrum bins (performFFT cos_impl fft (map z data))))).
Proof.
  intros Hlen. unfold processData.
  assert (Hguard : (length data <? 4)%nat = false) by (apply Nat.ltb_ge; exact Hlen).
  rewrite Hguard.
  destruct (nth_error data 0) as [first|] eqn:E0.
  2:{ apply nth_error_None in E0. lia. }
  destruct (nth_error data (length data - 1)) as [last|] eqn:E1.
  2:{ apply nth_error_None in E1. lia. }
  exists first, last. repeat split.
Qed.

Lemma frequencyBins_length (len : nat) (rate : float) :
  length (frequencyBins len rate) = len.
Proof. unfold frequencyBins. now rewrite length_map, length_seq. Qed.

Lemma frequencyBins_nth_error (len : nat) (rate : float) (i : nat) :
  (i < len)%nat ->
  nth_error (frequencyBins len rate) i =
  Some ((JS.of_nat i * rate) / (JS.of_nat len * 2)).
Proof.
  intros Hi. unfold frequencyBins.
  rewrite nth_error_map, nth_error_seq.
  apply Nat.ltb_lt in Hi. now rewrite Hi.
Qed.

(** First and last sample with one and the same finite timestamp: the
    duration is [+0]. *)
Lemma equal_timestamps_duration_zero (first last : AccelerometerData) (t : float) :
  timestamp first = Some t -> timestamp last = Some t -> is_infinity t = false ->
  durationSeconds first last = 0.
Proof.
  intros Hf Hl Hi. unfold durationSeconds. rewrite Hf, Hl. unfold JS.orZero.
  destruct (is_nan t || is_zero t) eqn:E; [reflexivity|].
  apply orb_false_elim in E as [Hn _].
  now rewrite FloatFacts.sub_diag_zero.
Qed.

(** C5: with fewer than four samples [processData] returns at once.  The
    resulting state does not depend on the samples or on the libraries: no
    rate is estimated, no transform runs, and [fftResults] is left as it
    was. *)
Theorem short_buffer_skipped
    (cos_impl : float -> float) (fft : FftInput -> FftOutcome)
    (st : State) (data : list AccelerometerData) :
  (length data < 4)%nat ->
  processData cos_impl fft st data = mkState false DebugNotEnough (fftResults st).
Proof.
  intros Hlen. unfold processData.
  apply Nat.ltb_lt in Hlen. now rewrite Hlen.
Qed.

(** The statement at the three-sample recording. *)
Lemma short_buffer_skipped_witness :
  processData Standin.cos_poly Standin.fft_dft Standin.idle Standin.short3 =
  mkState false DebugNotEnough None.
Proof.
  apply (short_buffer_skipped Standin.cos_poly Standin.fft_dft Standin.idle Standin.short3).
  cbn. lia.
Defined.

(** C1, as the code has it: the frequency axis is computed once, from the
    length [M] of the X-axis magnitude spectrum, and shared by the three
    axes; entry [i] is [i * R / (M * 2)] for [0 <= i < M].  When the X-axis
    transform returns [P] coefficient pairs, [M * 2] is [P]: the entry is
    [i * R / P]. *)
Theorem frequency_axis_formula
    (cos_impl : float -> float) (fft : FftInput -> FftOutcome)
    (st : State) (data : list AccelerometerData) :
  (4 <= length data)%nat ->
  exists first last res,
    nth_error data 0 = Some first /\
    nth_error data (length data - 1) = Some last /\
    fftResults (processData cos_impl fft st data) = Some res /\
    let R := samplingRate (length data) (durationSeconds first last) in
    let M := length (magnitudes (xAxis res)) in
    magnitudes (xAxis res) = performFFT cos_impl fft (map x data) /\
    frequencies (yAxis res) = frequencies (xAxis res) /\
    frequencies (zAxis res) = frequencies (xAxis res) /\
    length (frequencies (xAxis res)) = M /\
    (forall i, (i < M)%nat ->
       nth_error (frequencies (xAxis res)) i =
       Some ((JS.of_nat i * R) / (JS.of_nat M * 2))) /\
    (forall coefficients,
       fft (Phasors (phasors (windowedData cos_impl (map x data)))) =
         Arr (asPairs coefficients) ->
       length coefficients = nextPow2 (length data) ->
       (M * 2)%nat = nextPow2 (length data)).
Proof.
  intros Hlen.
  destruct (processData_run cos_impl fft st data Hlen) as (first & last & E0 & E1 & E).
  cbv zeta in E.
  eexists first, last, _. rewrite E. cbn [fftResults].
  split; [exact E0|]. split; [exact E1|]. split; [reflexivity|].
  cbn [xAxis yAxis zAxis frequencies magnitudes].
  split; [reflexivity|]. split; [reflexivity|]. split; [reflexivity|].
  split; [apply frequencyBins_length|]. split.
  - intros i Hi. now apply frequencyBins_nth_error.
  - intros coefficients Hfft Hc.
    assert (H2 : (2 <= length (map x data))%nat) by (rewrite length_map; lia).
    rewrite (performFFT_of_coefficients cos_impl fft (map x data) coefficients H2)
      by (rewrite ?length_map; auto using callFft_of_phasors).
    rewrite length_map, length_firstn, length_map.
    pose proof (nextPow2_even (length data) ltac:(lia)). lia.
Qed.

(** The statement at the recording of eight samples. *)
Lemma frequency_axis_formula_witness :
  exists res,
    fftResults (processData Standin.cos_poly Standin.fft_dft Standin.idle Standin.steady8)
      = Some res /\
    length (frequencies (xAxis res)) = length (magnitudes (xAxis res)) /\
    frequencies (yAxis res) = frequencies (xAxis res).
Proof.
  destruct (frequency_axis_formula Standin.cos_poly Standin.fft_dft Standin.idle
              Standin.steady8) as (first & last & res & _ & _ & Hres & _ & Hy & _ & Hl & _).
  - cbn. lia.
  - exists res. split; [exact Hres|]. split; [exact Hl | exact Hy].
Defined.

(** C1 fails on the code: for eight samples 10 ms apart ([P = 8], [M = 4],
    [R = 8 / 0.07]) bin 1 is at [R / 8], that is [1 * R / P], and not at
    [1 * R / (P * 2)]. *)
Lemma frequency_axis_denominator_is_padded_length :
  exists res,
    fftResults (processData Standin.cos_poly Standin.fft_dft Standin.idle Standin.steady8)
      = Some res /\
    length (magnitudes (xAxis res)) = 4%nat /\
    nextPow2 (length Standin.steady8) = 8%nat /\
    nth_error (frequencies (xAxis res)) 1 =
      Some ((JS.of_nat 1 * samplingRate 8 ((70 - 0) / 1000)) / JS.of_nat 8) /\
    nth_error (frequencies (xAxis res)) 1 <>
      Some ((JS.of_nat 1 * samplingRate 8 ((70 - 0) / 1000)) / (JS.of_nat 8 * 2)).
Proof.
  eexists. split; [vm_compute; reflexivity|].
  cbn [xAxis magnitudes frequencies].
  split; [reflexivity|]. split; [reflexivity|].
  split; [vm_compute; reflexivity|].
  intros H. apply (f_equal (fun o => match o with Some v => v | None => 0 end)) in H.
  vm_compute in H. float_neq H.
Qed.

(** C2, as the code has it: no duration is rejected.  For every buffer of at
    least four samples [processData] records the statistics and stores the
    three spectra with their frequency axis.  The duration is 0 when the
    first and the last sample carry the same finite timestamp; and when it is
    0 the rate recorded is [+Infinity], and bin 0 of a non-empty frequency
    axis is NaN. *)
Theorem zero_duration_is_analysed
    (cos_impl : float -> float) (fft : FftInput -> FftOutcome)
    (st : State) (data : list AccelerometerData) :
  (4 <= length data)%nat -> (Z.of_nat (length data) < 2 ^ 32)%Z ->
  exists first last res,
    nth_error data 0 = Some first /\
    nth_error data (length data - 1) = Some last /\
    let duration := durationSeconds first last in
    let rate := samplingRate (length data) duration in
    processData cos_impl fft st data =
      mkState false (DebugStats (length data) duration rate) (Some res) /\
    magnitudes (xAxis res) = performFFT cos_impl fft (map x data) /\
    magnitudes (yAxis res) = performFFT cos_impl fft (map y data) /\
    magnitudes (zAxis res) = performFFT cos_impl fft (map z data) /\
    frequencies (xAxis res) = frequencyBins (length (magnitudes (xAxis res))) rate /\
    (forall t, timestamp first = Some t -> timestamp last = Some t ->
               is_infinity t = false -> duration = 0) /\
    (duration = 0 ->
       rate = infinity /\
       (magnitudes (xAxis res) <> [] -> nth_error (frequencies (xAxis res)) 0 = Some nan)).
Proof.
  intros Hlen Hbound.
  destruct (processData_run cos_impl fft st data Hlen) as (first & last & E0 & E1 & E).
  cbv zeta in E.
  eexists first, last, _. split; [exact E0|]. split; [exact E1|].
  cbv zeta. split; [exact E|]. cbn [xAxis yAxis zAxis frequencies magnitudes].
  repeat (split; [reflexivity|]).
  split; [intros t; apply equal_timestamps_duration_zero|].
  intros Hd. rewrite Hd.
  assert (HR : samplingRate (length data) 0 = infinity).
  { unfold samplingRate. apply FloatFacts.div_pos_zero, FloatFacts.of_nat_pos; [lia|exact Hbound]. }
  split; [exact HR|].
  intros Hne. rewrite frequencyBins_nth_error.
  2:{ destruct (performFFT cos_impl fft (map x data)); [congruence | cbn; lia]. }
  rewrite HR. change (JS.of_nat 0 * infinity) with nan.
  now rewrite FloatFacts.div_nan_l.
Qed.

(** The statement at the recording whose samples share one timestamp. *)
Lemma zero_duration_is_analysed_witness :
  exists res,
    processData Standin.cos_poly Standin.fft_dft Standin.idle Standin.frozenClock =
      mkState false (DebugStats 4 0 infinity) (Some res).
Proof.
  destruct (zero_duration_is_analysed Standin.cos_poly Standin.fft_dft Standin.idle
              Standin.frozenClock) as (first & last & res & E0 & E1 & E & _).
  - cbn. lia.
  - cbn. lia.
  - exists res. cbn in E0, E1.
    injection E0 as <-. injection E1 as <-. exact E.
Defined.

(** C2 fails on the code: four samples with one and the same timestamp are
    analysed like any other recording, with an infinite sampling rate and a
    frequency axis of NaN and [Infinity]. *)
Lemma frozen_clock_is_analysed :
  exists res,
    processData Standin.cos_poly Standin.fft_dft Standin.idle Standin.frozenClock =
      mkState false (DebugStats 4 0 infinity) (Some res) /\
    frequencies (xAxis res) = [nan; infinity] /\
    length (magnitudes (xAxis res)) = 2%nat /\
    length (magnitudes (yAxis res)) = 2%nat /\
    length (magnitudes (zAxis res)) = 2%nat.
Proof.
  eexists. split; [vm_compute; reflexivity|].
  cbn [xAxis yAxis zAxis frequencies magnitudes length]. repeat split.
Qed.

(** ** Sorting *)

Section SortFacts.

Context {A : Type}.
Variable comparefn : A -> A -> float.

Lemma sort_insert_perm (a : A) (sorted : list A) :
  Permutation (JS.sort_insert comparefn a sorted) (a :: sorted).
Proof.
  induction sorted as [|b rest IH]; cbn [JS.sort_insert]; [reflexivity|].
  destruct (0 <? comparefn a b); [|reflexivity].
  rewrite IH. apply perm_swap.
Qed.

Lemma sort_perm (arr : list A) : Permutation (JS.sort comparefn arr) arr.
Proof.
  induction arr as [|a rest IH]; cbn [JS.sort]; [reflexivity|].
  rewrite sort_insert_perm. now constructor.
Qed.

Lemma sort_length (arr : list A) : length (JS.sort comparefn arr) = length arr.
Proof. apply Permutation_length, sort_perm. Qed.

Lemma sort_In (a : A) (arr : list A) : In a arr -> In a (JS.sort comparefn arr).
Proof. intros H. eapply Permutation_in; [symmetry; apply sort_perm | exact H]. Qed.

End SortFacts.

Section SortedFacts.

Context {A : Type}.
Variable R : A -> A -> Prop.

Lemma Forall_firstn_keep (P : A -> Prop) (n : nat) : forall l,
  Forall P l -> Forall P (firstn n l).
Proof.
  induction n as [|n IH]; intros l Hl; [constructor|].
  destruct Hl as [|a l Ha Hl]; cbn [firstn]; constructor; auto.
Qed.

Lemma StronglySorted_firstn (n : nat) : forall l,
  StronglySorted R l -> StronglySorted R (firstn n l).
Proof.
  induction n as [|n IH]; intros l Hl; [constructor|].
  destruct l as [|a l]; cbn [firstn]; [constructor|].
  apply StronglySorted_inv in Hl as [Hl Ha].
  constructor; [apply IH, Hl | apply Forall_firstn_keep, Ha].
Qed.

Lemma Forall_filter_keep (P : A -> Prop) (g : A -> bool) (l : list A) :
  Forall P l -> Forall P (filter g l).
Proof.
  induction 1 as [|a l Ha Hl IH]; cbn [filter]; [constructor|].
  destruct (g a); [constructor|]; assumption.
Qed.

Lemma StronglySorted_filter (g : A -> bool) (l : list A) :
  StronglySorted R l -> StronglySorted R (filter g l).
Proof.
  induction 1 as [|a l Hl IH Ha]; cbn [filter]; [constructor|].
  destruct (g a); [|exact IH].
  constructor; [exact IH | apply Forall_filter_keep, Ha].
Qed.

Lemma StronglySorted_repeat (a : A) (n : nat) :
  R a a -> StronglySorted R (repeat a n).
Proof.
  intros Ha. induction n as [|n IH]; cbn [repeat]; constructor; [exact IH|].
  apply Forall_forall. intros b Hb. apply repeat_spec in Hb. now subst.
Qed.

End SortedFacts.

(** ** The ranking by magnitude *)

(** Inserting a positive finite entry that precedes, by index, every entry
    of a ranked list keeps the list ranked. *)
Lemma sort_insert_ranked (a : Peak) (sorted : list Peak) :
  posfin (magnitude a) ->
  Forall (fun b => posfin (magnitude b)) sorted ->
  Forall (index_lt a) sorted ->
  StronglySorted ranks_before sorted ->
  StronglySorted ranks_before (JS.sort_insert byMagnitudeDesc a sorted).
Proof.
  intros Ha. induction sorted as [|b rest IH]; intros Hpos Hidx Hsorted.
  - cbn. constructor; constructor.
  - apply Forall_cons_iff in Hpos as [Hb Hpos].
    apply Forall_cons_iff in Hidx as [Hab Hidx].
    pose proof Hsorted as Hfull.
    apply StronglySorted_inv in Hsorted as [Hrest Hbrest].
    cbn [JS.sort_insert]. unfold byMagnitudeDesc at 1.
    rewrite FloatFacts.sub_pos_iff_lt by assumption.
    destruct (magnitude a <? magnitude b) eqn:E.
    + constructor; [now apply IH|].
      eapply Permutation_Forall; [symmetry; apply sort_insert_perm|].
      constructor; [|exact Hbrest].
      split; [now apply FloatFacts.ltb_leb|].
      intros Heq. rewrite Heq, FloatFacts.ltb_irrefl in E by assumption. discriminate.
    + constructor; [exact Hfull|].
      assert (Hba : (magnitude b <=? magnitude a) = true)
        by (now apply FloatFacts.nltb_leb).
      constructor; [split; [exact Hba | intros _; exact Hab]|].
      rewrite Forall_forall in *. intros c Hc. split.
      * destruct (Hbrest c Hc) as [Hcb _].
        apply FloatFacts.leb_trans with (magnitude b); auto.
      * intros _. now apply Hidx.
Qed.

Lemma sort_ranked (candidates : list Peak) :
  Forall (fun b => posfin (magnitude b)) candidates ->
  StronglySorted index_lt candidates ->
  StronglySorted ranks_before (JS.sort byMagnitudeDesc candidates).
Proof.
  induction candidates as [|a rest IH]; intros Hpos Hidx; cbn [JS.sort]; [constructor|].
  apply Forall_cons_iff in Hpos as [Ha Hpos].
  apply StronglySorted_inv in Hidx as [Hrest Harest].
  apply sort_insert_ranked; auto.
  - eapply Permutation_Forall; [symmetry; apply sort_perm | exact Hpos].
  - eapply Permutation_Forall; [symmetry; apply sort_perm | exact Harest].
Qed.

(** ** The candidates of the ranking *)

Lemma In_mapi_from {A B : Type} (f : A -> nat -> B) (arr : list A) (start : nat) (b : B) :
  In b (JS.mapi_from f start arr) <->
  exists k v, nth_error arr k = Some v /\ b = f v (start + k)%nat.
Proof.
  split.
  - intros H. apply In_nth_error in H as [k Hk].
    rewrite mapi_from_nth_error in Hk.
    destruct (nth_error arr k) as [v|] eqn:E; [|discriminate].
    exists k, v. split; [exact E|]. cbn in Hk. congruence.
  - intros (k & v & Hk & ->). apply nth_error_In with (n := k).
    now rewrite mapi_from_nth_error, Hk.
Qed.

(** What [sanitize] leaves of a magnitude that passes the filter. *)
Lemma sanitize_positive (mag : float) :
  (0 <? sanitize (Some mag)) = true ->
  sanitize (Some mag) = mag /\ posfin mag.
Proof.
  unfold sanitize. destruct (JS.isNaN mag || negb (JS.isFinite mag)) eqn:E.
  - intros H. vm_compute in H. discriminate.
  - intros H. split; [reflexivity|].
    apply orb_false_elim in E as [_ E]. apply negb_false_iff in E.
    unfold JS.isFinite in E. apply negb_true_iff, orb_false_elim in E as [_ E].
    now apply FloatFacts.posfin_intro.
Qed.

(** The entries before the filter, in ascending index order from
    [start + 1]. *)
Lemma mapi_from_index_sorted (frequencies : list float) (mags : list float) : forall start,
  StronglySorted index_lt
    (JS.mapi_from (fun mag i =>
                     mkPeak (Some (i + 1)%nat) (sanitize (Some mag))
                            (sanitize (nth_error frequencies (i + 1)%nat)))
                  start mags).
Proof.
  induction mags as [|m mags IH]; intros start; cbn [JS.mapi_from]; constructor.
  - apply IH.
  - apply Forall_forall. intros b Hb. apply In_mapi_from in Hb as (k & v & _ & ->).
    intros i j Hi Hj. cbn in Hi, Hj. injection Hi as <-. injection Hj as <-. lia.
Qed.

(** Every candidate is a bin [i >= 1] of the spectrum with a positive finite
    magnitude, which it carries unchanged, and the candidates come in
    ascending index order. *)
Lemma indexedMagnitudes_spec (frequencies magnitudes : list float) :
  Forall (fun p =>
            posfin (magnitude p) /\
            exists i, index p = Some i /\ (1 <= i)%nat /\
                      nth_error magnitudes i = Some (magnitude p) /\
                      frequency p = sanitize (nth_error frequencies i))
         (indexedMagnitudes frequencies magnitudes) /\
  StronglySorted index_lt (indexedMagnitudes frequencies magnitudes).
Proof.
  unfold indexedMagnitudes, JS.mapi. split.
  - apply Forall_forall. intros p Hp. apply filter_In in Hp as [Hp Hpos].
    apply In_mapi_from in Hp as (k & v & Hk & ->). cbn [magnitude index frequency] in *.
    apply sanitize_positive in Hpos as [Hs Hv]. rewrite Hs.
    split; [exact Hv|]. exists (S k).
    rewrite nth_error_skipn in Hk. cbn [Nat.add] in Hk.
    replace (0 + k + 1)%nat with (S k) by lia.
    split; [reflexivity|]. split; [lia|]. split; [exact Hk | reflexivity].
  - apply StronglySorted_filter, mapi_from_index_sorted.
Qed.

Lemma getDominantFrequencies_none (frequencies magnitudes : list float) (count : nat) :
  indexedMagnitudes frequencies magnitudes = [] ->
  getDominantFrequencies frequencies magnitudes count = repeat placeholder count.
Proof. intros H. unfold getDominantFrequencies. now rewrite H. Qed.

Lemma getDominantFrequencies_some (frequencies magnitudes : list float) (count : nat) :
  indexedMagnitudes frequencies magnitudes <> [] ->
  getDominantFrequencies frequencies magnitudes count =
  firstn count (JS.sort byMagnitudeDesc (indexedMagnitudes frequencies magnitudes)).
Proof.
  intros H. unfold getDominantFrequencies.
  destruct (indexedMagnitudes frequencies magnitudes); [congruence | reflexivity].
Qed.

(** C6: no entry of the output is the bin at index 0 (an entry that has an
    index carries the magnitude of that bin, and the index is at least 1);
    the output is in descending order of magnitude; and of two entries with
    equal magnitude the one with the smaller index, which came first in the
    spectrum, comes first. *)
Theorem dominant_frequencies_ranked (frequencies magnitudes : list float) (count : nat) :
  Forall (fun p =>
            index p <> Some 0%nat /\
            forall i, index p = Some i -> nth_error magnitudes i = Some (magnitude p))
         (getDominantFrequencies frequencies magnitudes count) /\
  StronglySorted ranks_before (getDominantFrequencies frequencies magnitudes count).
Proof.
  destruct (indexedMagnitudes_spec frequencies magnitudes) as [Hcand Hidx].
  destruct (indexedMagnitudes frequencies magnitudes) as [|c cs] eqn:E.
  - rewrite getDominantFrequencies_none by exact E. split.
    + apply Forall_forall. intros p Hp. apply repeat_spec in Hp. subst p.
      split; [discriminate | intros i Hi; discriminate Hi].
    + apply StronglySorted_repeat. split; [reflexivity|].
      intros _ i j Hi. discriminate Hi.
  - rewrite getDominantFrequencies_some by (rewrite E; discriminate).
    rewrite E. split.
    + apply Forall_firstn_keep.
      eapply Permutation_Forall; [symmetry; apply sort_perm|].
      eapply Forall_impl; [|exact Hcand].
      intros p (_ & i & Hi & H1 & Hm & _). rewrite Hi. split.
      * intros H. injection H as ->. lia.
      * intros j Hj. injection Hj as <-. exact Hm.
    + apply StronglySorted_firstn, sort_ranked; [|exact Hidx].
      eapply Forall_impl; [|exact Hcand]. now intros p [Hp _].
Qed.

Lemma indexedMagnitudes_all_zero (frequencies : list float) (n : nat) :
  indexedMagnitudes frequencies (repeat 0 n) = [].
Proof.
  unfold indexedMagnitudes, JS.mapi.
  destruct (filter _ _) as [|p ps] eqn:E; [reflexivity|].
  assert (Hp : In p (p :: ps)) by (left; reflexivity).
  rewrite <- E in Hp. apply filter_In in Hp as [Hp Hpos].
  apply In_mapi_from in Hp as (k & v & Hk & ->).
  apply nth_error_In in Hk.
  assert (Hv : In v (repeat 0 n)).
  { destruct n as [|n]; [destruct Hk|]. cbn [repeat skipn] in Hk. now right. }
  apply repeat_spec in Hv. subst v. discriminate Hpos.
Qed.

(** C3, on the code: an all-zero magnitude spectrum, of any length, yields
    [count] placeholder entries [{ frequency: 0, magnitude: 0 }] and not the
    empty list. *)
Theorem all_zero_spectrum_gives_placeholders
    (frequencies : list float) (n count : nat) :
  getDominantFrequencies frequencies (repeat 0 n) count =
  repeat (mkPeak None 0 0) count.
Proof.
  apply getDominantFrequencies_none, indexedMagnitudes_all_zero.
Qed.

Example all_zero_spectrum_run :
  getDominantFrequencies [0; 1; 2; 3] [0; 0; 0; 0] 3 =
  [mkPeak None 0 0; mkPeak None 0 0; mkPeak None 0 0].
Proof. vm_compute. reflexivity. Qed.

(** With at least one and at most [count] candidates the output is all of
    them, reordered. *)
Lemma few_candidates_all_returned (frequencies magnitudes : list float) (count : nat) :
  indexedMagnitudes frequencies magnitudes <> [] ->
  (length (indexedMagnitudes frequencies magnitudes) <= count)%nat ->
  Permutation (getDominantFrequencies frequencies magnitudes count)
              (indexedMagnitudes frequencies magnitudes).
Proof.
  intros Hne Hlen. rewrite getDominantFrequencies_some by exact Hne.
  rewrite firstn_all2 by (now rewrite sort_length). apply sort_perm.
Qed.

(** C10, as the code has it: a bin [i >= 1] with a positive finite magnitude
    whose frequency is NaN or not finite stays among the candidates, with
    frequency 0; the output is the first [count] candidates of the ranking,
    so the entry is in the output whenever at most [count] candidates
    exist. *)
Theorem invalid_frequency_kept_as_zero
    (frequencies magnitudes : list float) (count i : nat) (mag freq : float) :
  (1 <= i)%nat ->
  nth_error magnitudes i = Some mag ->
  JS.isNaN mag = false -> JS.isFinite mag = true -> (0 <? mag) = true ->
  nth_error frequencies i = Some freq ->
  (JS.isNaN freq || negb (JS.isFinite freq)) = true ->
  let entry := mkPeak (Some i) mag 0 in
  In entry (indexedMagnitudes frequencies magnitudes) /\
  In entry (JS.sort byMagnitudeDesc (indexedMagnitudes frequencies magnitudes)) /\
  getDominantFrequencies frequencies magnitudes count =
    firstn count (JS.sort byMagnitudeDesc (indexedMagnitudes frequencies magnitudes)) /\
  ((length (indexedMagnitudes frequencies magnitudes) <= count)%nat ->
   In entry (getDominantFrequencies frequencies magnitudes count)).
Proof.
  intros Hi Hm Hnan Hfin Hpos Hf Hbad entry.
  assert (Hin : In entry (indexedMagnitudes frequencies magnitudes)).
  { unfold indexedMagnitudes, JS.mapi. apply filter_In. split; [|exact Hpos].
    apply In_mapi_from. exists (i - 1)%nat, mag.
    rewrite nth_error_skipn. replace (1 + (i - 1))%nat with i by lia.
    split; [exact Hm|]. cbn [Nat.add].
    replace (i - 1 + 1)%nat with i by lia. rewrite Hf.
    unfold entry, sanitize. now rewrite Hnan, Hfin, Hbad. }
  assert (Hsome : getDominantFrequencies frequencies magnitudes count =
                  firstn count (JS.sort byMagnitudeDesc
                                  (indexedMagnitudes frequencies magnitudes))).
  { apply getDominantFrequencies_some. intros E. rewrite E in Hin. exact Hin. }
  split; [exact Hin|]. split; [now apply sort_In|]. split; [exact Hsome|].
  intros Hlen. rewrite Hsome, firstn_all2 by (now rewrite sort_length).
  now apply sort_In.
Qed.

(** The statement at a spectrum of three valid bins, bin 2 with a NaN
    frequency. *)
Lemma invalid_frequency_kept_as_zero_witness :
  In (mkPeak (Some 2%nat) 5 0)
     (getDominantFrequencies [0; 1; nan; 3] [9; 4; 5; 6] 3).
Proof.
  apply (invalid_frequency_kept_as_zero [0; 1; nan; 3] [9; 4; 5; 6] 3 2 5 nan);
    try reflexivity; cbn; lia.
Defined.

(** C10 fails as stated: with four valid bins and [count = 3] the bin with
    the NaN frequency, whose magnitude is the smallest, is not in the
    output. *)
Lemma invalid_frequency_entry_can_be_cut :
  getDominantFrequencies [0; nan; 2; 3; 4] [0; 1; 5; 6; 7] 3 =
    [mkPeak (Some 4%nat) 7 4; mkPeak (Some 3%nat) 6 3; mkPeak (Some 2%nat) 5 2] /\
  ~ In (mkPeak (Some 1%nat) 1 0)
       (getDominantFrequencies [0; nan; 2; 3; 4] [0; 1; 5; 6; 7] 3).
Proof.
  split; [vm_compute; reflexivity|].
  intros H. vm_compute in H.
  destruct H as [H|[H|[H|[]]]];
    apply (f_equal index) in H; discriminate H.
Qed.

(** ** Failure of the transform *)

(** When the transform throws for both input formats, or returns something
    that is no array, [performFFT] returns zeros: as many as half the number
    of raw samples, rounded up. *)
Lemma performFFT_fallback
    (cos_impl : float -> float) (fft : FftInput -> FftOutcome) (timeData : list float) :
  (forall fftResult,
     callFft fft (windowedData cos_impl timeData) <> Arr fftResult) ->
  performFFT cos_impl fft timeData = repeat 0 ((length timeData + 1) / 2)%nat.
Proof.
  intros H. unfold performFFT.
  destruct (callFft fft (windowedData cos_impl timeData)) as [| |r]; try reflexivity.
  now destruct (H r).
Qed.


(** ** The statements at concrete inputs *)

(** Padding at five samples. *)
Lemma performFFT_pads_then_windows_witness :
  paddedData [1; 2; 3; 4; 5] = [1; 2; 3; 4; 5; 0; 0; 0] /\
  nextPow2 5 = 8%nat.
Proof.
  destruct (performFFT_pads_then_windows Standin.cos_poly Standin.fft_dft [1; 2; 3; 4; 5])
    as (_ & _ & _ & Hp & Hl & _); [cbn; lia|].
  split; [exact Hp | exact Hl].
Defined.

(** The magnitude spectrum of the [x] axis of the eight-sample recording,
    with the direct transform. *)
Lemma magnitude_spectrum_first_half_witness :
  length (performFFT Standin.cos_poly Standin.fft_dft (map x Standin.steady8)) = 4%nat.
Proof.
  destruct (magnitude_spectrum_first_half Standin.cos_poly Standin.fft_dft
              (map x Standin.steady8)
              (Standin.dft (phasors (windowedData Standin.cos_poly (map x Standin.steady8)))))
    as [H _]; [cbn; lia | left; reflexivity | vm_compute; reflexivity | exact H].
Defined.

(** * Further properties of the code *)

(** ** More facts about binary64 arithmetic *)

Module FloatSigns.

Import FloatFacts.

Local Open Scope Z_scope.

Lemma shr_fexp_nonneg (m e : Z) (l : location) :
  0 <= m -> 0 <= shr_m (fst (shr_fexp prec emax m e l)).
Proof.
  intros Hm. unfold shr_fexp, shr.
  destruct (fexp prec emax (Zdigits2 m + e) - e) as [|n|n]; cbn [fst];
    rewrite ?shr_record_of_loc_m; try exact Hm.
  apply iter_shr_1_m. now rewrite shr_record_of_loc_m.
Qed.

Lemma round_nearest_even_nonneg (m : Z) (l : location) :
  0 <= m -> 0 <= round_nearest_even m l.
Proof.
  intros Hm. unfold round_nearest_even.
  destruct l as [|[ | | ]]; try lia. destruct (Z.even m); lia.
Qed.

(** Rounding a non-negative mantissa never yields NaN. *)
Lemma binary_round_aux_not_nan (s : bool) (m e : Z) (l : location) :
  0 <= m -> not_nan (binary_round_aux prec emax s m e l).
Proof.
  intros Hm. unfold binary_round_aux.
  pose proof (shr_fexp_nonneg m e l Hm) as H1.
  destruct (shr_fexp prec emax m e l) as [mrs' e']. cbn [fst] in H1.
  pose proof (round_nearest_even_nonneg _ (loc_of_shr_record mrs') H1) as H2.
  pose proof (shr_fexp_nonneg _ e' loc_Exact H2) as H3.
  destruct (shr_fexp prec emax _ e' loc_Exact) as [mrs'' e'']. cbn [fst] in H3.
  destruct (shr_m mrs''); try lia; try exact I.
  destruct (e'' <=? emax - prec); exact I.
Qed.

Lemma binary_round_not_nan (s : bool) (m : positive) (e : Z) :
  not_nan (binary_round prec emax s m e).
Proof.
  unfold binary_round. destruct (shl_align m e _) as [mz ez].
  apply binary_round_aux_not_nan. lia.
Qed.

(** Rounding with a clear sign bit yields a clear sign bit. *)
Lemma binary_round_aux_sign_clear (m e : Z) (l : location) :
  sign_clear (binary_round_aux prec emax false m e l).
Proof.
  unfold binary_round_aux.
  destruct (shr_fexp prec emax m e l) as [mrs' e'].
  destruct (shr_fexp prec emax _ e' loc_Exact) as [mrs'' e''].
  destruct (shr_m mrs''); try exact I.
  destruct (e'' <=? emax - prec); exact I.
Qed.

Lemma sign_clear_not_negative (r : spec_float) : sign_clear r -> not_negative r.
Proof. destruct r as [[|]|[|]| |[|] m e]; cbn; auto. Qed.

Lemma digits_iter_xO (k p : positive) :
  Z.pos (digits2_pos (Pos.iter xO p k)) = Z.pos (digits2_pos p) + Z.pos k.
Proof.
  induction k using Pos.peano_ind.
  - cbn. lia.
  - rewrite Pos.iter_succ. cbn [digits2_pos]. lia.
Qed.

(** The length of a non-empty array converts to a positive finite number. *)
Lemma of_nat_posfin (n : nat) :
  (1 <= n)%nat -> Z.of_nat n < 2 ^ 32 -> posfin (JS.of_nat n).
Proof.
  intros H1 H2. unfold posfin, JS.of_nat.
  rewrite of_uint63_spec, Uint63.of_Z_spec.
  rewrite Z.mod_small.
  2:{ split; [lia|]. eapply Z.lt_trans; [exact H2|]. reflexivity. }
  destruct (Z.of_nat n) as [|p|p] eqn:E; try lia.
  cbn [binary_normalize]. unfold binary_round.
  pose proof (digits2_pos_bounds p) as [Hlo _].
  assert (Hd : Z.pos (digits2_pos p) <= 32).
  { destruct (Z_le_gt_dec (Z.pos (digits2_pos p)) 32) as [|Hgt]; [assumption|].
    assert (2 ^ 32 <= 2 ^ (Z.pos (digits2_pos p) - 1)) by (apply Z.pow_le_mono_r; lia).
    lia. }
  set (d := Z.pos (digits2_pos p)) in *.
  assert (Hf : fexp prec emax (d + 0) = d - 53) by (unfold fexp, emin, prec, emax; lia).
  rewrite Hf. unfold shl_align.
  destruct (d - 53 - 0) as [|k|k] eqn:Ek; try lia.
  unfold binary_round_aux, shr_fexp. cbn [Zdigits2].
  rewrite digits_iter_xO. fold d.
  assert (Hf2 : fexp prec emax (d + Z.pos k + (d - 53)) - (d - 53) = 0)
    by (unfold fexp, emin, prec, emax; lia).
  rewrite Hf2. cbn [shr shr_record_of_loc shr_m loc_of_shr_record round_nearest_even
                    Zdigits2].
  rewrite digits_iter_xO. fold d. rewrite Hf2.
  cbn [shr shr_record_of_loc shr_m].
  assert (Hle : (d - 53 <=? emax - prec) = true)
    by (apply Z.leb_le; unfold emax, prec; lia).
  rewrite Hle. eexists _, _. reflexivity.
Qed.

Lemma of_nat_sign_clear (n : nat) : sign_clear (Prim2SF (JS.of_nat n)).
Proof.
  unfold JS.of_nat. rewrite of_uint63_spec.
  pose proof (Uint63.to_Z_bounded (Uint63.of_Z (Z.of_nat n))) as [Hlo _].
  destruct (Uint63.to_Z _) as [|p|p]; try lia; [exact I|].
  cbn [binary_normalize]. unfold binary_round.
  destruct (shl_align p 0 _) as [mz ez]. apply binary_round_aux_sign_clear.
Qed.

Local Open Scope float_scope.

(** A square root is never below zero. *)
Lemma sqrt_not_negative (v : float) : not_negative (Prim2SF (sqrt v)).
Proof.
  rewrite sqrt_spec. unfold SF64sqrt, SFsqrt.
  destruct (Prim2SF v) as [[|]|[|]| |[|] m e]; try exact I.
  destruct (SFsqrt_core_binary prec emax (Z.pos m) e) as [[mz ez] lz].
  apply sign_clear_not_negative, binary_round_aux_sign_clear.
Qed.

Lemma div_not_negative (a b : float) :
  not_negative (Prim2SF a) -> sign_clear (Prim2SF b) -> not_negative (Prim2SF (a / b)).
Proof.
  intros Ha Hb. rewrite div_spec. unfold SF64div, SFdiv.
  destruct (Prim2SF a) as [[|]|[|]| |[|] ma ea]; cbn in Ha; try contradiction;
    destruct (Prim2SF b) as [[|]|[|]| |[|] mb eb]; cbn in Hb; try contradiction;
    try exact I.
  destruct (SFdiv_core_binary prec emax (Z.pos ma) ea (Z.pos mb) eb) as [[mz ez] lz].
  apply sign_clear_not_negative, binary_round_aux_sign_clear.
Qed.

Lemma not_negative_ltb (v : float) : not_negative (Prim2SF v) -> (v <? 0) = false.
Proof.
  intros H. rewrite ltb_spec. change (Prim2SF 0) with (S754_zero false).
  destruct (Prim2SF v) as [[|]|[|]| |[|] m e]; cbn in H; try contradiction; reflexivity.
Qed.

(** A value that is not NaN is told so by [is_nan]. *)
Lemma not_nan_is_nan (v : float) : not_nan (Prim2SF v) -> is_nan v = false.
Proof.
  intros H. unfold is_nan. rewrite eqb_spec. unfold SFeqb.
  destruct (Prim2SF v) as [[|]|[|]| |[|] m e]; cbn in H; try contradiction;
    try reflexivity; cbn [SFcompare]; rewrite Z.compare_refl;
    change (Pos.compare_cont Eq m m) with (Pos.compare m m);
    now rewrite Pos.compare_refl.
Qed.

Lemma is_nan_not_nan (v : float) : is_nan v = false -> not_nan (Prim2SF v).
Proof.
  unfold is_nan. rewrite eqb_spec. destruct (Prim2SF v); cbn; try discriminate; auto.
Qed.

Lemma is_infinity_false (v : float) :
  is_infinity v = false ->
  match Prim2SF v with S754_infinity _ => False | _ => True end.
Proof.
  unfold is_infinity. rewrite eqb_spec, abs_spec.
  change (Prim2SF infinity) with (S754_infinity false).
  destruct (Prim2SF v) as [[|]|[|]| |[|] m e]; cbn; try discriminate; auto.
Qed.

(** The difference of two finite numbers is never NaN. *)
Lemma sub_finite_not_nan (a b : float) :
  finite_or_zero (Prim2SF a) -> finite_or_zero (Prim2SF b) ->
  not_nan (Prim2SF (a - b)).
Proof.
  intros Ha Hb. rewrite sub_spec. unfold SF64sub, SFsub.
  destruct (Prim2SF a) as [[|]|[|]| |sa ma ea]; cbn in Ha; try contradiction;
    destruct (Prim2SF b) as [[|]|[|]| |sb mb eb]; cbn in Hb; try contradiction;
    try exact I.
  unfold binary_normalize.
  destruct (_ - _)%Z; [exact I | apply binary_round_not_nan | apply binary_round_not_nan].
Qed.

Lemma SFdiv_core_nonneg (m1 m2 : positive) (e1 e2 : Z) :
  (0 <= fst (fst (SFdiv_core_binary prec emax (Z.pos m1) e1 (Z.pos m2) e2)))%Z.
Proof.
  unfold SFdiv_core_binary.
  set (s := (e1 - e2 - _)%Z).
  set (m' := match s with Z.pos _ => Z.shiftl (Z.pos m1) s | 0%Z => Z.pos m1 | Z.neg _ => 0%Z end).
  assert (Hm' : (0 <= m')%Z).
  { unfold m'. destruct s; try lia. apply Z.shiftl_nonneg. lia. }
  pose proof (Z.div_pos m' (Z.pos m2) Hm' ltac:(lia)) as Hq.
  unfold Z.div in Hq. destruct (Z.div_eucl m' (Z.pos m2)) as [q r]. exact Hq.
Qed.

(** A quotient is NaN only for a NaN operand, zero by zero, or infinity by
    infinity. *)
Lemma div_not_nan (a b : float) :
  not_nan (Prim2SF a) -> not_nan (Prim2SF b) ->
  finite_or_zero (Prim2SF a) \/ finite_or_zero (Prim2SF b) ->
  (exists s m e, Prim2SF a = S754_finite s m e) \/
  (exists s m e, Prim2SF b = S754_finite s m e) ->
  not_nan (Prim2SF (a / b)).
Proof.
  intros Ha Hb Hfin Hnz. rewrite div_spec. unfold SF64div, SFdiv.
  destruct (Prim2SF a) as [sa|sa| |sa ma ea]; cbn in Ha; try contradiction;
    destruct (Prim2SF b) as [sb|sb| |sb mb eb]; cbn in Hb; try contradiction;
    try exact I.
  - destruct Hnz as [(s & m & e & H)|(s & m & e & H)]; discriminate H.
  - destruct Hfin as [H|H]; destruct H.
  - pose proof (SFdiv_core_nonneg ma mb ea eb) as Hq.
    destruct (SFdiv_core_binary prec emax (Z.pos ma) ea (Z.pos mb) eb) as [[mz ez] lz].
    cbn [fst] in Hq. now apply binary_round_aux_not_nan.
Qed.

End FloatSigns.

(** ** Numbers the pipeline cannot produce *)

Lemma magnitudesOf_not_negative (fftResult : list JsElem) (windowedLength : nat) :
  Forall (fun m => (m <? 0) = false) (magnitudesOf fftResult windowedLength).
Proof.
  unfold magnitudesOf. apply Forall_forall. intros m Hm.
  destruct (firstIsArray fftResult); apply in_map_iff in Hm as (e & <- & _);
    apply FloatSigns.not_negative_ltb, FloatSigns.div_not_negative;
    auto using FloatSigns.sqrt_not_negative, FloatSigns.of_nat_sign_clear.
Qed.

(** X1: no magnitude [performFFT] returns is below zero, whatever the samples
    and whatever the transform returns or throws: every entry is NaN, a zero
    or a positive number. *)
Theorem magnitudes_never_negative
    (cos_impl : float -> float) (fft : FftInput -> FftOutcome) (timeData : list float) :
  Forall (fun m => (m <? 0) = false) (performFFT cos_impl fft timeData).
Proof.
  unfold performFFT.
  destruct (callFft fft (windowedData cos_impl timeData)) as [| |fftResult].
  - apply Forall_forall. intros m Hm. apply repeat_spec in Hm. now subst m.
  - apply Forall_forall. intros m Hm. apply repeat_spec in Hm. now subst m.
  - apply magnitudesOf_not_negative.
Qed.

Lemma orZero_finite (v : option float) :
  (forall t, v = Some t -> is_infinity t = false) ->
  finite_or_zero (Prim2SF (JS.orZero v)).
Proof.
  intros H. destruct v as [t|]; cbn [JS.orZero]; [|exact I].
  destruct (is_nan t || is_zero t) eqn:E; [exact I|].
  apply orb_false_elim in E as [Hn _].
  apply FloatSigns.is_nan_not_nan in Hn.
  pose proof (FloatSigns.is_infinity_false t (H t eq_refl)) as Hi.
  destruct (Prim2SF t); cbn in *; auto.
Qed.

Lemma finite_or_zero_not_nan (r : spec_float) : finite_or_zero r -> not_nan r.
Proof. destruct r; cbn; auto. Qed.

(** With finite timestamps the duration is never NaN. *)
Lemma durationSeconds_not_nan (first last : AccelerometerData) :
  (forall t, timestamp first = Some t -> is_infinity t = false) ->
  (forall t, timestamp last = Some t -> is_infinity t = false) ->
  not_nan (Prim2SF (durationSeconds first last)).
Proof.
  intros Hf Hl. unfold durationSeconds.
  assert (H1000 : exists s m e, Prim2SF 1000 = S754_finite s m e)
    by (eexists _, _, _; vm_compute; reflexivity).
  apply FloatSigns.div_not_nan.
  - apply FloatSigns.sub_finite_not_nan; now apply orZero_finite.
  - destruct H1000 as (s & m & e & ->). exact I.
  - right. destruct H1000 as (s & m & e & ->). exact I.
  - right. exact H1000.
Qed.

Lemma samplingRate_not_nan (len : nat) (duration : float) :
  (1 <= len)%nat -> (Z.of_nat len < 2 ^ 32)%Z ->
  not_nan (Prim2SF duration) ->
  not_nan (Prim2SF (samplingRate len duration)).
Proof.
  intros H1 H2 Hd. unfold samplingRate.
  destruct (FloatSigns.of_nat_posfin len H1 H2) as (m & e & E).
  apply FloatSigns.div_not_nan; rewrite ?E; try exact I; auto.
  - left. exact I.
  - left. now exists false, m, e.
Qed.

(** X2: for a recording of at least four samples whose first and last
    timestamps are finite numbers (or absent), neither the duration nor the
    sampling rate that [processData] records is NaN.  (The rate can be an
    infinity, never NaN.) *)
Theorem recorded_rate_never_nan
    (cos_impl : float -> float) (fft : FftInput -> FftOutcome)
    (st : State) (data : list AccelerometerData) :
  (4 <= length data)%nat -> (Z.of_nat (length data) < 2 ^ 32)%Z ->
  (forall d t, In d data -> timestamp d = Some t -> is_infinity t = false) ->
  exists duration rate,
    debugInfo (processData cos_impl fft st data) =
      DebugStats (length data) duration rate /\
    JS.isNaN duration = false /\ JS.isNaN rate = false.
Proof.
  intros Hlen Hbound Hfin.
  destruct (processData_run cos_impl fft st data Hlen) as (first & last & E0 & E1 & E).
  cbv zeta in E. rewrite E. cbn [debugInfo].
  eexists _, _. split; [reflexivity|].
  assert (Hd : not_nan (Prim2SF (durationSeconds first last))).
  { apply durationSeconds_not_nan; intros t Ht;
      [apply (Hfin first) | apply (Hfin last)]; eauto using nth_error_In. }
  split; apply FloatSigns.not_nan_is_nan; [exact Hd|].
  apply samplingRate_not_nan; [lia | exact Hbound | exact Hd].
Qed.

(** The statement at the recording of eight samples. *)
Lemma recorded_rate_never_nan_witness :
  exists duration rate,
    debugInfo (processData Standin.cos_poly Standin.fft_dft Standin.idle Standin.steady8) =
      DebugStats 8 duration rate /\
    JS.isNaN duration = false /\ JS.isNaN rate = false.
Proof.
  apply (recorded_rate_never_nan Standin.cos_poly Standin.fft_dft Standin.idle
           Standin.steady8).
  - cbn. lia.
  - cbn. lia.
  - intros d t Hd Ht. cbn in Hd.
    repeat (destruct Hd as [<-|Hd]; [cbn in Ht; injection Ht as <-; reflexivity|]).
    destruct Hd.
Defined.

(** ** Padding *)

Lemma nextPow2_pos (len : nat) :
  (1 <= len)%nat -> nextPow2 len = (2 ^ Nat.log2_up len)%nat.
Proof. destruct len; [lia | reflexivity]. Qed.

Lemma nextPow2_idempotent (len : nat) : nextPow2 (nextPow2 len) = nextPow2 len.
Proof.
  destruct len as [|n]; [reflexivity|].
  rewrite (nextPow2_pos (S n)) by lia.
  set (k := Nat.log2_up (S n)).
  assert (Hpos : (2 ^ k <> 0)%nat) by (apply Nat.pow_nonzero; lia).
  rewrite nextPow2_pos by lia. now rewrite Nat.log2_up_pow2 by lia.
Qed.

Lemma nextPow2_lt_double (len : nat) : (1 <= len)%nat -> (nextPow2 len < 2 * len)%nat.
Proof.
  intros H. destruct len as [|[|n]]; [lia | cbn; lia |].
  cbn [nextPow2].
  destruct (Nat.log2_up_spec (S (S n)) ltac:(lia)) as [Hlo _].
  destruct (Nat.log2_up (S (S n))) as [|k]; [cbn in *; lia|].
  cbn [Nat.pred] in Hlo. rewrite Nat.pow_succ_r'. lia.
Qed.

(** X3: for a non-empty sequence the padded length [P] satisfies
    [L <= P < 2 L], so padding never doubles the data; and padding a padded
    sequence again leaves it unchanged. *)
Theorem padding_bounded_and_idempotent (timeData : list float) :
  (1 <= length timeData)%nat ->
  (length timeData <= length (paddedData timeData) < 2 * length timeData)%nat /\
  paddedData (paddedData timeData) = paddedData timeData.
Proof.
  intros HL. rewrite paddedData_length. split.
  - split; [apply nextPow2_ge | now apply nextPow2_lt_double].
  - unfold paddedData at 1. rewrite paddedData_length, nextPow2_idempotent.
    now rewrite Nat.sub_diag.
Qed.

(** Padding three samples. *)
Lemma padding_bounded_and_idempotent_witness :
  paddedData (paddedData [1; 2; 3]) = paddedData [1; 2; 3].
Proof.
  apply (padding_bounded_and_idempotent [1; 2; 3]). cbn. lia.
Defined.

(** ** A transform that keeps its contract *)







(** ** Charts and captions *)






(** Without a spectrum beyond the bin at index 0 the X chart has no point,
    while the Y and Z charts fall back to four zeros. *)
Lemma charts_of_short_spectrum (magnitudes : list float) :
  (length magnitudes <= 1)%nat ->
  Render.chartDataX magnitudes = [] /\ Render.chartDataYZ magnitudes = [0; 0; 0; 0].
Proof.
  intros H. destruct magnitudes as [|m [|m' rest]]; cbn in H; try lia; split; reflexivity.
Qed.





(** ** More about the dominant frequencies *)

Lemma mapi_from_ext {A B : Type} (f g : A -> nat -> B) (arr : list A) : forall start,
  (forall v i, f v i = g v i) ->
  JS.mapi_from f start arr = JS.mapi_from g start arr.
Proof.
  induction arr as [|a arr IH]; intros start H; cbn [JS.mapi_from]; [reflexivity|].
  now rewrite H, IH.
Qed.

Lemma filter_mapi_from_length {A B : Type} (f : A -> nat -> B) (g : B -> bool)
    (h : A -> bool) (arr : list A) : forall start,
  (forall v i, g (f v i) = h v) ->
  length (filter g (JS.mapi_from f start arr)) = length (filter h arr).
Proof.
  induction arr as [|a arr IH]; intros start H; cbn [JS.mapi_from filter]; [reflexivity|].
  rewrite H. destruct (h a); cbn [length]; now rewrite IH.
Qed.

Lemma sanitize_valid (mag : float) :
  (0 <? sanitize (Some mag)) = validMagnitude mag.
Proof.
  unfold sanitize, validMagnitude.
  destruct (JS.isNaN mag), (JS.isFinite mag); reflexivity.
Qed.

Lemma validMagnitude_posfin (mag : float) :
  validMagnitude mag = true -> sanitize (Some mag) = mag /\ posfin mag.
Proof. rewrite <- sanitize_valid. apply sanitize_positive. Qed.

(** The candidates are as many as the valid bins after the first. *)
Lemma indexedMagnitudes_length (frequencies magnitudes : list float) :
  length (indexedMagnitudes frequencies magnitudes) =
  length (filter validMagnitude (skipn 1 magnitudes)).
Proof.
  unfold indexedMagnitudes, JS.mapi. apply filter_mapi_from_length.
  intros v i. cbn [magnitude]. apply sanitize_valid.
Qed.

(** A valid bin after the first is a candidate. *)
Lemma valid_bin_is_candidate (frequencies magnitudes : list float) (i : nat) (mag : float) :
  (1 <= i)%nat -> nth_error magnitudes i = Some mag -> validMagnitude mag = true ->
  In (mkPeak (Some i) mag (sanitize (nth_error frequencies i)))
     (indexedMagnitudes frequencies magnitudes).
Proof.
  intros Hi Hm Hv. unfold indexedMagnitudes, JS.mapi. apply filter_In. split.
  - apply In_mapi_from. exists (i - 1)%nat, mag.
    rewrite nth_error_skipn. replace (1 + (i - 1))%nat with i by lia.
    split; [exact Hm|]. cbn [Nat.add]. replace (i - 1 + 1)%nat with i by lia.
    now destruct (validMagnitude_posfin mag Hv) as [-> _].
  - cbn [magnitude]. unfold validMagnitude in Hv.
    now apply andb_prop in Hv as [_ Hv].
Qed.

(** X7: the output never mixes placeholders with ranked entries.  With no
    valid bin after the first it is [count] placeholders; otherwise it has
    [min count n] entries, [n] the number of valid bins after the first, and
    each of them carries the index of a bin. *)
Theorem dominant_output_shape (frequencies magnitudes : list float) (count : nat) :
  let n := length (filter validMagnitude (skipn 1 magnitudes)) in
  (n = 0%nat ->
     getDominantFrequencies frequencies magnitudes count = repeat placeholder count) /\
  (n <> 0%nat ->
     length (getDominantFrequencies frequencies magnitudes count) = Nat.min count n /\
     Forall (fun p => index p <> None)
            (getDominantFrequencies frequencies magnitudes count)).
Proof.
  intros n. unfold n. rewrite <- (indexedMagnitudes_length frequencies). split.
  - intros H0. apply getDominantFrequencies_none. now apply length_zero_iff_nil.
  - intros Hn.
    assert (Hne : indexedMagnitudes frequencies magnitudes <> [])
      by (intros E; rewrite E in Hn; now apply Hn).
    rewrite getDominantFrequencies_some by exact Hne. split.
    + now rewrite length_firstn, sort_length.
    + apply Forall_firstn_keep.
      eapply Permutation_Forall; [symmetry; apply sort_perm|].
      destruct (indexedMagnitudes_spec frequencies magnitudes) as [Hc _].
      eapply Forall_impl; [|exact Hc].
      intros p (_ & i & Hi & _). rewrite Hi. discriminate.
Qed.

Lemma sanitize_finite (v : option float) :
  JS.isNaN (sanitize v) = false /\ JS.isFinite (sanitize v) = true.
Proof.
  destruct v as [f|]; cbn [sanitize]; [|split; reflexivity].
  destruct (JS.isNaN f || negb (JS.isFinite f)) eqn:E; [split; reflexivity|].
  apply orb_false_elim in E as [E1 E2]. apply negb_false_iff in E2. now split.
Qed.

(** X8: whatever the input arrays hold, every entry of the output has a
    frequency and a magnitude that are neither NaN nor infinite. *)
Theorem dominant_fields_are_finite (frequencies magnitudes : list float) (count : nat) :
  Forall (fun p =>
            JS.isNaN (frequency p) = false /\ JS.isFinite (frequency p) = true /\
            JS.isNaN (magnitude p) = false /\ JS.isFinite (magnitude p) = true)
         (getDominantFrequencies frequencies magnitudes count).
Proof.
  unfold getDominantFrequencies.
  destruct (length (indexedMagnitudes frequencies magnitudes) =? 0)%nat.
  - apply Forall_forall. intros p Hp. apply repeat_spec in Hp. subst p.
    repeat split.
  - apply Forall_firstn_keep.
    eapply Permutation_Forall; [symmetry; apply sort_perm|].
    unfold indexedMagnitudes, JS.mapi. apply Forall_filter_keep.
    apply Forall_forall. intros p Hp. apply In_mapi_from in Hp as (k & v & _ & ->).
    cbn [frequency magnitude].
    destruct (sanitize_finite (nth_error frequencies (0 + k + 1))).
    destruct (sanitize_finite (Some v)). auto.
Qed.

Lemma leb_refl_posfin (v : float) : posfin v -> (v <=? v) = true.
Proof.
  intros H. apply FloatFacts.nltb_leb; auto. now apply FloatFacts.ltb_irrefl.
Qed.

(** X9: the first entry of the output is a largest valid bin: no bin after
    the first with a positive finite magnitude exceeds it. *)
Theorem dominant_first_is_maximum
    (frequencies magnitudes : list float) (count i : nat) (mag : float)
    (top : Peak) (rest : list Peak) :
  getDominantFrequencies frequencies magnitudes count = top :: rest ->
  (1 <= i)%nat -> nth_error magnitudes i = Some mag -> validMagnitude mag = true ->
  (mag <=? magnitude top) = true.
Proof.
  intros Hout Hi Hm Hv.
  pose proof (valid_bin_is_candidate frequencies magnitudes i mag Hi Hm Hv) as Hin.
  destruct (validMagnitude_posfin mag Hv) as [_ Hpos].
  destruct (indexedMagnitudes_spec frequencies magnitudes) as [Hc Hidx].
  rewrite getDominantFrequencies_some in Hout
    by (intros E; rewrite E in Hin; exact Hin).
  assert (Hsorted : StronglySorted ranks_before
                      (JS.sort byMagnitudeDesc (indexedMagnitudes frequencies magnitudes))).
  { apply sort_ranked; [|exact Hidx]. eapply Forall_impl; [|exact Hc]. now intros p [Hp _]. }
  apply (sort_In byMagnitudeDesc) in Hin.
  destruct (JS.sort byMagnitudeDesc (indexedMagnitudes frequencies magnitudes))
    as [|head tail]; [destruct Hin|].
  destruct count as [|count]; [discriminate Hout|].
  cbn [firstn] in Hout. injection Hout as <- _.
  apply StronglySorted_inv in Hsorted as [_ Hhead].
  destruct Hin as [E|Hin]; [rewrite E; now apply leb_refl_posfin|].
  rewrite Forall_forall in Hhead. now destruct (Hhead _ Hin).
Qed.

(** The largest of three valid bins comes first. *)
Lemma dominant_first_is_maximum_witness :
  (5 <=? magnitude (mkPeak (Some 3%nat) 6 3)) = true.
Proof.
  apply (dominant_first_is_maximum [0; 1; 2; 3] [9; 4; 5; 6] 3 2 5
           (mkPeak (Some 3%nat) 6 3)
           [mkPeak (Some 2%nat) 5 2; mkPeak (Some 1%nat) 4 1]);
    try reflexivity; cbn; lia.
Defined.

(** X10: the output does not depend on the first entry of either array: the
    magnitude and the frequency of the bin at index 0 are never read. *)
Theorem dominant_ignores_dc
    (f0 f0' m0 m0' : float) (frequencies magnitudes : list float) (count : nat) :
  getDominantFrequencies (f0 :: frequencies) (m0 :: magnitudes) count =
  getDominantFrequencies (f0' :: frequencies) (m0' :: magnitudes) count.
Proof.
  assert (E : indexedMagnitudes (f0 :: frequencies) (m0 :: magnitudes) =
              indexedMagnitudes (f0' :: frequencies) (m0' :: magnitudes)).
  { unfold indexedMagnitudes, JS.mapi. cbn [skipn]. f_equal.
    apply mapi_from_ext. intros v i. now rewrite Nat.add_1_r. }
  unfold getDominantFrequencies. now rewrite E.
Qed.

Lemma indices_placeholders (count : nat) : indices (repeat placeholder count) = [].
Proof. induction count as [|n IH]; [reflexivity | exact IH]. Qed.

Lemma indices_NoDup (peaks : list Peak) :
  StronglySorted index_lt peaks -> NoDup (indices peaks).
Proof.
  induction 1 as [|p peaks Hs IH Hp]; [constructor|].
  unfold indices in *. cbn [flat_map].
  destruct (index p) as [i|] eqn:Ei; [|exact IH].
  cbn [app]. constructor; [|exact IH].
  intros Hin. apply in_flat_map in Hin as (q & Hq & Hi).
  rewrite Forall_forall in Hp. specialize (Hp q Hq).
  destruct (index q) as [j|] eqn:Ej; [|destruct Hi].
  destruct Hi as [Hij|[]]. specialize (Hp i j Ei Ej). lia.
Qed.

Lemma indices_firstn_NoDup (n : nat) (peaks : list Peak) :
  NoDup (indices peaks) -> NoDup (indices (firstn n peaks)).
Proof.
  intros H. rewrite <- (firstn_skipn n peaks) in H.
  unfold indices in *. rewrite flat_map_app in H.
  now apply NoDup_app_remove_r in H.
Qed.

(** X11: the output reports every bin at most once, and an entry that
    reports bin [i] carries the frequency stored at index [i] (0 when that
    is NaN, infinite or missing): magnitudes are never paired with the
    frequency of another bin. *)
Theorem dominant_bins_distinct_and_paired
    (frequencies magnitudes : list float) (count : nat) :
  NoDup (indices (getDominantFrequencies frequencies magnitudes count)) /\
  Forall (fun p => forall i, index p = Some i ->
                     frequency p = sanitize (nth_error frequencies i))
         (getDominantFrequencies frequencies magnitudes count).
Proof.
  destruct (indexedMagnitudes_spec frequencies magnitudes) as [Hc Hidx].
  unfold getDominantFrequencies.
  destruct (length (indexedMagnitudes frequencies magnitudes) =? 0)%nat.
  - change (repeat (mkPeak None 0 0) count) with (repeat placeholder count).
    rewrite (indices_placeholders count). split; [constructor|].
    apply Forall_forall. intros p Hp. apply repeat_spec in Hp. subst p.
    intros i Hi. discriminate Hi.
  - split.
    + apply indices_firstn_NoDup.
      eapply Permutation_NoDup; [|apply indices_NoDup, Hidx].
      unfold indices. apply Permutation_flat_map. symmetry. apply sort_perm.
    + apply Forall_firstn_keep.
      eapply Permutation_Forall; [symmetry; apply sort_perm|].
      eapply Forall_impl; [|exact Hc].
      intros p (_ & i & Hi & _ & _ & Hf) j Hj. congruence.
Qed.

(** ** The recording session *)

Lemma fold_onReading (readings : list Session.Reading) : forall s,
  let s' := fold_left Session.onReading readings s in
  Session.dataCollection s' =
    Session.dataCollection s ++ map Session.timestamped readings /\
  Session.isRecording s' = Session.isRecording s /\
  Session.recordedData s' = Session.recordedData s /\
  Session.analysis s' = Session.analysis s /\
  Session.recordingTimer s' = Session.recordingTimer s /\
  Session.alerts s' = Session.alerts s.
Proof.
  induction readings as [|r readings IH]; intros s; cbn [fold_left map].
  - cbv zeta. rewrite app_nil_r. repeat split.
  - specialize (IH (Session.onReading s r)). cbv zeta in *.
    destruct IH as (H1 & H2 & H3 & H4 & H5 & H6).
    rewrite H1, H2, H3, H4, H5, H6. cbn. rewrite <- app_assoc. repeat split.
Qed.

Lemma processData_shows_results
    (cos_impl : float -> float) (fft : FftInput -> FftOutcome)
    (st : State) (data : list AccelerometerData) :
  fftResults st = None ->
  Render.resultsShown (processData cos_impl fft st data) = (4 <=? length data)%nat.
Proof.
  intros Hnone. destruct (Nat.le_gt_cases 4 (length data)) as [Hge|Hlt].
  - destruct (processData_run cos_impl fft st data Hge) as (first & last & _ & _ & E).
    rewrite E. symmetry. now apply Nat.leb_le.
  - unfold processData. assert (E : (length data <? 4)%nat = true) by now apply Nat.ltb_lt.
    rewrite E. unfold Render.resultsShown. cbn [fftResults]. rewrite Hnone.
    symmetry. apply Nat.leb_gt. exact Hlt.
Qed.

(** X12: a session (start, the readings that arrive, stop) ends with
    recording off and the timer cleared; the recorded data are the readings
    in arrival order, each stamped with its arrival time; the results are
    shown exactly when at least four readings arrived; and the "No Data
    Collected" alert is raised exactly when none arrived.  With one to three
    readings there are neither results nor an alert. *)
Theorem session_outcome
    (cos_impl : float -> float) (fft : FftInput -> FftOutcome)
    (s : Session.Screen) (readings : list Session.Reading) :
  let s' := Session.session cos_impl fft s readings in
  Session.isRecording s' = false /\
  Session.recordingTimer s' = false /\
  Session.recordedData s' = map Session.timestamped readings /\
  Render.resultsShown (Session.analysis s') = (4 <=? length readings)%nat /\
  Session.alerts s' =
    if (length readings =? 0)%nat
    then Session.alerts s ++ [Session.NoDataCollected]
    else Session.alerts s.
Proof.
  cbv zeta. unfold Session.session, Session.stopRecording.
  destruct (fold_onReading readings (Session.recordingStarted (Session.startRecording s)))
    as (H1 & _ & H3 & H4 & _ & H6).
  cbv zeta in *. cbn in H1, H3, H4, H6. rewrite H1.
  rewrite length_map.
  destruct readings as [|r readings].
  - cbn [length Nat.ltb Nat.leb Nat.eqb]. cbn [Session.isRecording Session.recordingTimer
      Session.recordedData Session.analysis Session.alerts].
    rewrite H3, H4, H6. repeat split.
  - assert (E : (0 <? length (r :: readings))%nat = true) by (apply Nat.ltb_lt; cbn; lia).
    rewrite E. cbn [Session.isRecording Session.recordingTimer
      Session.recordedData Session.analysis Session.alerts].
    rewrite H4, H6.
    split; [reflexivity|]. split; [reflexivity|]. split; [reflexivity|].
    split; [|reflexivity].
    rewrite processData_shows_results by reflexivity. now rewrite length_map.
Qed.

Lemma processData_idempotent
    (cos_impl : float -> float) (fft : FftInput -> FftOutcome)
    (st : State) (data : list AccelerometerData) :
  processData cos_impl fft (processData cos_impl fft st data) data =
  processData cos_impl fft st data.
Proof.
  unfold processData. destruct (length data <? 4)%nat; [reflexivity|].
  destruct (nth_error data 0), (nth_error data (length data - 1)); reflexivity.
Qed.

(** X13: [stopRecording] leaves the collection in place, so a second call
    (the ten-second timeout and the progress timer both call it) sees the
    same data.  When something was collected, stopping a second time changes
    nothing: the same data are processed to the same results.  When nothing
    was collected, the second call raises the alert a second time. *)
Theorem stopping_twice
    (cos_impl : float -> float) (fft : FftInput -> FftOutcome) (s : Session.Screen) :
  let once := Session.stopRecording cos_impl fft s in
  let twice := Session.stopRecording cos_impl fft once in
  (Session.dataCollection s <> [] -> twice = once) /\
  (Session.dataCollection s = [] ->
     Session.alerts twice =
       Session.alerts s ++ [Session.NoDataCollected; Session.NoDataCollected] /\
     Session.analysis twice = Session.analysis s /\
     Session.recordedData twice = Session.recordedData s).
Proof.
  cbv zeta. split.
  - intros Hne. unfold Session.stopRecording.
    destruct (Session.dataCollection s) as [|d ds] eqn:E; [congruence|].
    cbn [length Nat.ltb Nat.leb Session.dataCollection Session.data Session.analysis
         Session.alerts].
    now rewrite processData_idempotent.
  - intros E. unfold Session.stopRecording. rewrite E.
    cbn [length Nat.ltb Nat.leb Session.dataCollection].
    cbn [length Nat.ltb Nat.leb Session.alerts Session.analysis Session.recordedData].
    rewrite <- app_assoc. repeat split.
Qed.




Lemma processData_results_independent
    (cos_impl : float -> float) (fft : FftInput -> FftOutcome)
    (st1 st2 : State) (data : list AccelerometerData) :
  fftResults st1 = fftResults st2 ->
  fftResults (processData cos_impl fft st1 data) =
  fftResults (processData cos_impl fft st2 data).
Proof.
  intros H. unfold processData. destruct (length data <? 4)%nat; [exact H|].
  destruct (nth_error data 0), (nth_error data (length data - 1)); cbn; auto.
Qed.

(** X15: the results of a session do not depend on the screen it started
    from: the recorded data and the stored spectra are determined by the
    readings alone, so nothing of an earlier recording survives into them. *)
Theorem session_depends_only_on_readings
    (cos_impl : float -> float) (fft : FftInput -> FftOutcome)
    (s1 s2 : Session.Screen) (readings : list Session.Reading) :
  Session.recordedData (Session.session cos_impl fft s1 readings) =
  Session.recordedData (Session.session cos_impl fft s2 readings) /\
  fftResults (Session.analysis (Session.session cos_impl fft s1 readings)) =
  fftResults (Session.analysis (Session.session cos_impl fft s2 readings)).
Proof.
  assert (H : forall s,
    Session.recordedData (Session.session cos_impl fft s readings) =
      map Session.timestamped readings /\
    fftResults (Session.analysis (Session.session cos_impl fft s readings)) =
      fftResults (processData cos_impl fft (mkState false DebugInitial None)
                    (map Session.timestamped readings))).
  { intros s. unfold Session.session, Session.stopRecording.
    destruct (fold_onReading readings (Session.recordingStarted (Session.startRecording s)))
      as (H1 & _ & H3 & H4 & _ & _).
    cbv zeta in *. cbn in H1, H3, H4. rewrite H1.
    destruct readings as [|r readings].
    - cbn [map length Nat.ltb Nat.leb Session.recordedData Session.analysis].
      rewrite H3, H4. split; reflexivity.
    - assert (E : (0 <? length (map Session.timestamped (r :: readings)))%nat = true)
        by (apply Nat.ltb_lt; cbn; lia).
      rewrite E. cbn [Session.recordedData Session.analysis]. split; [reflexivity|].
      rewrite H4. now apply processData_results_independent. }
  destruct (H s1) as [-> ->]. destruct (H s2) as [-> ->]. split; reflexivity.
Qed.

(** ** What the transform is given, and what follows its failure *)





(** X17: when the transform fails for an axis (both calls throw, or a call
    returns something that is no array), the dominant frequencies of that
    axis are [count] placeholder entries, whatever the frequency axis. *)
Theorem failed_axis_shows_placeholders
    (cos_impl : float -> float) (fft : FftInput -> FftOutcome)
    (timeData frequencies : list float) (count : nat) :
  (forall fftResult, callFft fft (windowedData cos_impl timeData) <> Arr fftResult) ->
  getDominantFrequencies frequencies (performFFT cos_impl fft timeData) count =
  repeat placeholder count.
Proof.
  intros Hfail. rewrite performFFT_fallback by exact Hfail.
  apply getDominantFrequencies_none, indexedMagnitudes_all_zero.
Qed.

(** The statement for a transform that always throws. *)
Lemma failed_axis_shows_placeholders_witness :
  getDominantFrequencies [0; 1; 2]
    (performFFT Standin.cos_poly (fun _ => Throws) [1; 2; 3; 4; 5]) 3 =
  repeat placeholder 3.
Proof.
  apply (failed_axis_shows_placeholders Standin.cos_poly (fun _ => Throws)).
  intros fftResult H. discriminate H.
Defined.

Lemma firstn_repeat {A : Type} (a : A) (n k : nat) :
  firstn n (repeat a (n + k)) = repeat a n.
Proof. induction n as [|n IH]; [reflexivity|]. cbn. now rewrite IH. Qed.

(** X18: asking for fewer entries gives a prefix of the longer answer: the
    output for [count] is the first [count] entries of the output for any
    larger count. *)
Theorem dominant_prefix_in_count
    (frequencies magnitudes : list float) (count more : nat) :
  getDominantFrequencies frequencies magnitudes count =
  firstn count (getDominantFrequencies frequencies magnitudes (count + more)).
Proof.
  unfold getDominantFrequencies.
  destruct (length (indexedMagnitudes frequencies magnitudes) =? 0)%nat.
  - now rewrite firstn_repeat.
  - rewrite firstn_firstn. f_equal. lia.
Qed.
